(** * mopidy.audio.scan: the scanner's polling loop and the tag normalizer

    A shallow embedding of [src/mopidy/audio/scan.py].  Python dictionaries
    are finite maps ([gmap]), exceptions are an explicit result type, and the
    GStreamer pipeline (clock, bus, state changes, duration query) is an
    explicit environment the scanner reads from.  Clock readings and the
    timeout in seconds are binary64 floats, as in Python. *)

From Stdlib Require Import ZArith String Ascii List DecimalString DecimalZ.
From Stdlib Require Import PrimFloat.
From Stdlib Require SpecFloat FloatOps FloatAxioms FloatLemmas Uint63.
From stdpp Require Import gmap strings list fin_maps.

Local Open Scope string_scope.
Local Open Scope Z_scope.

(** ** Exceptions *)

Inductive exn :=
| IndexError
| KeyError
| TypeError
| AttributeError
| QueryError
| OverflowError
| ScannerError (msg : string).

Inductive res (A : Type) :=
| Ok (a : A)
| Raise (e : exn).
Arguments Ok {A} a.
Arguments Raise {A} e.

Global Instance res_ret : MRet res := fun _ a => Ok a.
Global Instance res_bind : MBind res := fun _ _ f m =>
  match m with
  | Ok a => f a
  | Raise e => Raise e
  end.

(** ** Python values found in a tag map *)

Record date := Date { year : nat; month : nat; day : nat }.

Inductive value :=
| VNone
| VStr (s : string)
| VInt (z : Z)
| VDate (d : date).

(** A dictionary key: a tag name, or Python's [None] (the default of
    [_artists]'s [artist_id] parameter, which [artist_id in tags] looks up
    like any other key). *)
Abbreviation pykey := (option string).
Abbreviation TagMap := (gmap (option string) (list value)).

(** Python truthiness of a tag value. *)
Definition truthy (v : value) : bool :=
  match v with
  | VNone => false
  | VStr s => negb (String.eqb s "")
  | VInt z => negb (z =? 0)
  | VDate _ => true
  end.

(** Python truthiness of what [tags.get(k)] returns: [None] and the empty
    list are falsy. *)
Definition truthy_seq (o : option (list value)) : bool :=
  match o with
  | None | Some [] => false
  | Some (_ :: _) => true
  end.

(** [l[0]] *)
Definition index0 {A} (l : list A) : res A :=
  match l with
  | [] => Raise IndexError
  | x :: _ => Ok x
  end.

(** [tags[k]] *)
Definition getitem (tags : TagMap) (k : pykey) : res (list value) :=
  match tags !! k with
  | Some l => Ok l
  | None => Raise KeyError
  end.

(** [tags.get(k, default)]; [tags.get(k)] is [tags !! k]. *)
Definition get (tags : TagMap) (k : pykey) (default : list value) : list value :=
  match tags !! k with
  | Some l => l
  | None => default
  end.

(** [k in tags] *)
Definition contains (tags : TagMap) (k : pykey) : bool :=
  match tags !! k with
  | Some _ => true
  | None => false
  end.

(** ** GStreamer's tag names *)

Definition TAG_COMPOSER : pykey := Some "composer".
Definition TAG_PERFORMER : pykey := Some "performer".
Definition TAG_ARTIST : pykey := Some "artist".
Definition TAG_ALBUM_ARTIST : pykey := Some "album-artist".
Definition TAG_GENRE : pykey := Some "genre".
Definition TAG_TITLE : pykey := Some "title".
Definition TAG_ORGANIZATION : pykey := Some "organization".
Definition TAG_LOCATION : pykey := Some "location".
Definition TAG_COPYRIGHT : pykey := Some "copyright".
Definition TAG_TRACK_NUMBER : pykey := Some "track-number".
Definition TAG_ALBUM_VOLUME_NUMBER : pykey := Some "album-disc-number".
Definition TAG_BITRATE : pykey := Some "bitrate".
Definition TAG_ALBUM : pykey := Some "album".
Definition TAG_TRACK_COUNT : pykey := Some "track-count".
Definition TAG_ALBUM_VOLUME_COUNT : pykey := Some "album-disc-count".
Definition TAG_DATE : pykey := Some "date".

(** ** The domain records *)

(** Modelled from the spec: [mopidy.models.Artist] is not part of the
    scanner's source.  An Artist has a name and an optional globally-unique
    identifier; [None] is an identifier that was not passed to the
    constructor. *)
Record Artist := mkArtist {
  artist_name : value;
  artist_musicbrainz_id : option value
}.

(** [_artists(tags, artist_name, artist_id=None)]: [None] or a list of
    artists. *)
Definition _artists (tags : TagMap) (artist_name : pykey) (artist_id : pykey)
  : res (option (list Artist)) :=
  if negb (truthy_seq (tags !! artist_name)) then Ok None
  else
    names ← getitem tags artist_name;
    if (length names =? 1)%nat && contains tags artist_id then
      names ← getitem tags artist_name;
      name ← index0 names;
      ids ← getitem tags artist_id;
      mbid ← index0 ids;
      Ok (Some [mkArtist name (Some mbid)])
    else
      names ← getitem tags artist_name;
      Ok (Some (map (fun name => mkArtist name None) names)).

(** A keyword argument of [Album(...)] or [Track(...)]. *)
#[warnings="-register-all"]
Inductive field :=
| FVal (v : value)
| FArtists (l : list Artist)
| FAlbum (kwargs : gmap string field).

(** Modelled from the spec: [mopidy.models.Album] and [mopidy.models.Track]
    are not part of the scanner's source.  A record is the keyword arguments
    it was constructed with; a field that was not passed takes the domain
    model's default. *)
Definition Album (kwargs : gmap string field) : field := FAlbum kwargs.

Record Track := mkTrack { track_kwargs : gmap string field }.

(** What [_artists] returns, as a keyword argument. *)
Definition of_artists (o : option (list Artist)) : field :=
  match o with
  | None => FVal VNone
  | Some l => FArtists l
  end.

(** Python truthiness of a keyword argument. *)
Definition field_truthy (f : field) : bool :=
  match f with
  | FVal v => truthy v
  | FArtists [] => false
  | FArtists (_ :: _) => true
  | FAlbum _ => true
  end.

(** ** Strings *)

(** The items of a list handed to [str.join]: all of them must be strings. *)
Fixpoint str_items (l : list value) : res (list string) :=
  match l with
  | [] => Ok []
  | VStr s :: l => ss ← str_items l; Ok (s :: ss)
  | _ :: _ => Raise TypeError
  end.

(** [sep.join(l)] *)
Definition join (sep : string) (l : list value) : res string :=
  ss ← str_items l; Ok (String.concat sep ss).

(** ['%d' % z] *)
Definition format_d (z : Z) : string := NilZero.string_of_int (Z.to_int z).

(** ['%0wd' % n] for a natural number. *)
Definition zero_pad (width : nat) (n : nat) : string :=
  let digits := NilZero.string_of_uint (Nat.to_uint n) in
  String.concat "" (repeat "0" (width - String.length digits)) ++ digits.

(** [datetime.date.isoformat] *)
Definition date_isoformat (d : date) : string :=
  zero_pad 4 (year d) ++ "-" ++ zero_pad 2 (month d) ++ "-" ++ zero_pad 2 (day d).

(** [v.isoformat()]: only dates have the method. *)
Definition isoformat (v : value) : res string :=
  match v with
  | VDate d => Ok (date_isoformat d)
  | _ => Raise AttributeError
  end.

(** ** The metadata normalizer *)

(** [{k: v for k, v in kwargs.items() if v}] *)
Definition clear_empty (kwargs : gmap string field) : gmap string field :=
  filter (fun kv => field_truthy kv.2 = true) kwargs.

(** Lines 128-160 of [tags_to_track]: the two keyword dictionaries as they
    stand before the empty values are cleared out. *)
Definition tags_to_kwargs (tags : TagMap)
  : res (gmap string field * gmap string field) :=
  let album_kwargs : gmap string field := ∅ in
  let track_kwargs : gmap string field := ∅ in
  composers ← _artists tags TAG_COMPOSER None;
  let track_kwargs := <["composers" := of_artists composers]> track_kwargs in
  performers ← _artists tags TAG_PERFORMER None;
  let track_kwargs := <["performers" := of_artists performers]> track_kwargs in
  artists ← _artists tags TAG_ARTIST (Some "musicbrainz-artistid");
  let track_kwargs := <["artists" := of_artists artists]> track_kwargs in
  artists ← _artists tags TAG_ALBUM_ARTIST (Some "musicbrainz-albumartistid");
  let album_kwargs := <["artists" := of_artists artists]> album_kwargs in
  genre ← join "; " (get tags TAG_GENRE []);
  let track_kwargs := <["genre" := FVal (VStr genre)]> track_kwargs in
  name ← join "; " (get tags TAG_TITLE []);
  name ← (if negb (truthy (VStr name))
          then join "; " (get tags TAG_ORGANIZATION [])
          else Ok name);
  let track_kwargs := <["name" := FVal (VStr name)]> track_kwargs in
  comment ← join "; " (get tags (Some "comment") []);
  comment ← (if negb (truthy (VStr comment))
             then join "; " (get tags TAG_LOCATION [])
             else Ok comment);
  comment ← (if negb (truthy (VStr comment))
             then join "; " (get tags TAG_COPYRIGHT [])
             else Ok comment);
  let track_kwargs := <["comment" := FVal (VStr comment)]> track_kwargs in
  v ← index0 (get tags TAG_TRACK_NUMBER [VNone]);
  let track_kwargs := <["track_no" := FVal v]> track_kwargs in
  v ← index0 (get tags TAG_ALBUM_VOLUME_NUMBER [VNone]);
  let track_kwargs := <["disc_no" := FVal v]> track_kwargs in
  v ← index0 (get tags TAG_BITRATE [VNone]);
  let track_kwargs := <["bitrate" := FVal v]> track_kwargs in
  v ← index0 (get tags (Some "musicbrainz-trackid") [VNone]);
  let track_kwargs := <["musicbrainz_id" := FVal v]> track_kwargs in
  v ← index0 (get tags TAG_ALBUM [VNone]);
  let album_kwargs := <["name" := FVal v]> album_kwargs in
  v ← index0 (get tags TAG_TRACK_COUNT [VNone]);
  let album_kwargs := <["num_tracks" := FVal v]> album_kwargs in
  v ← index0 (get tags TAG_ALBUM_VOLUME_COUNT [VNone]);
  let album_kwargs := <["num_discs" := FVal v]> album_kwargs in
  v ← index0 (get tags (Some "musicbrainz-albumid") [VNone]);
  let album_kwargs := <["musicbrainz_id" := FVal v]> album_kwargs in
  has_date ← (if truthy_seq (tags !! TAG_DATE)
              then v ← index0 (get tags TAG_DATE []); Ok (truthy v)
              else Ok false);
  track_kwargs ← (if has_date : bool
                  then l ← getitem tags TAG_DATE;
                       v ← index0 l;
                       d ← isoformat v;
                       Ok (<["date" := FVal (VStr d)]> track_kwargs)
                  else Ok track_kwargs);
  Ok (track_kwargs, album_kwargs).

(** [tags_to_track(tags)] *)
Definition tags_to_track (tags : TagMap) : res Track :=
  kwargs ← tags_to_kwargs tags;
  (* Clear out any empty values we found *)
  let track_kwargs := clear_empty kwargs.1 in
  let album_kwargs := clear_empty kwargs.2 in
  let track_kwargs := <["album" := Album album_kwargs]> track_kwargs in
  Ok (mkTrack track_kwargs).


(** ** The pipeline, as the scanner sees it *)

(** The objects a bus message can come from ([message.src]): the scanner's
    top-level pipeline ([self._pipe]), its two children, and whatever
    elements the decode bin creates. *)
Inductive element :=
| Pipeline
| Uridecodebin
| Fakesink
| Child (n : nat).

Global Instance element_eq_dec : EqDecision element.
Proof. solve_decision. Defined.

Inductive gst_state := STATE_NULL | STATE_READY | STATE_PAUSED | STATE_PLAYING.

Inductive state_change_return :=
| STATE_CHANGE_FAILURE
| STATE_CHANGE_SUCCESS
| STATE_CHANGE_ASYNC
| STATE_CHANGE_NO_PREROLL.

Global Instance state_change_return_eq_dec : EqDecision state_change_return.
Proof. solve_decision. Defined.

(** [gst.MSECOND]: nanoseconds in a millisecond. *)
Definition MSECOND : Z := 1000000.

(** The methods of the scanner, as recorded in its call history. *)
Inductive call :=
| CallSetup (uri : string)
| CallCollect
| CallQueryDuration
| CallReset.

Global Instance call_eq_dec : EqDecision call.
Proof. solve_decision. Defined.

(** The scanner object: its configuration, the state it has put the pipeline
    and the bus in, and (ghost) the history of its method calls. *)
Record Scanner := mkScanner {
  _timeout_ms : Z;
  pipe_state : gst_state;
  uribin_uri : option string;
  bus_flushing : bool;
  history : list call
}.

(** [Scanner(timeout)], after [__init__]. *)
Definition Scanner_init (timeout : Z) : Scanner :=
  {| _timeout_ms := timeout; pipe_state := STATE_NULL; uribin_uri := None;
     bus_flushing := true; history := [] |}.

Definition log (c : call) (s : Scanner) : Scanner :=
  {| _timeout_ms := _timeout_ms s; pipe_state := pipe_state s;
     uribin_uri := uribin_uri s; bus_flushing := bus_flushing s;
     history := history s ++ [c] |}.

Definition set_state (st : gst_state) (s : Scanner) : Scanner :=
  {| _timeout_ms := _timeout_ms s; pipe_state := st;
     uribin_uri := uribin_uri s; bus_flushing := bus_flushing s;
     history := history s |}.

Definition set_uri (uri : string) (s : Scanner) : Scanner :=
  {| _timeout_ms := _timeout_ms s; pipe_state := pipe_state s;
     uribin_uri := Some uri; bus_flushing := bus_flushing s;
     history := history s |}.

Definition set_flushing (b : bool) (s : Scanner) : Scanner :=
  {| _timeout_ms := _timeout_ms s; pipe_state := pipe_state s;
     uribin_uri := uribin_uri s; bus_flushing := b;
     history := history s |}.

(** How often [_reset] was called. *)
Definition resets (s : Scanner) : nat :=
  length (filter (fun c => c = CallReset) (history s)).

(** ** Python floats *)

(** [float(z)] for a Python integer: the nearest binary64 value, ties to
    even; OverflowError when that is not finite. *)
Definition float_of_int (z : Z) : res float :=
  let f := FloatOps.SF2Prim
             (SpecFloat.binary_normalize FloatOps.prec FloatOps.emax z 0
                                         false) in
  if is_infinity f then Raise OverflowError else Ok f.

(** [timeout_ms / 1000.0] *)
Definition timeout_seconds (timeout_ms : Z) : res float :=
  f ← float_of_int timeout_ms; Ok (f / 1000)%float.

(** The decimal numeral a string holds, if it is one. *)
Definition read_d (s : string) : option Z :=
  Z.of_int <$> NilZero.int_of_string s.

Section Scan.
(** [gst.TagList] and what [message.parse_error()[0]] returns, with the two
    helpers of [mopidy.audio.utils] and [mopidy.utils.encoding] that turn
    them into a tag map and into text. *)
Context {taglist gerror : Type}.
Variable convert_taglist : taglist -> TagMap.
Variable locale_decode : gerror -> string.

(** A bus message: its type, its source and what it carries. *)
Inductive message :=
| MESSAGE_ERROR (src : element) (err : gerror)
| MESSAGE_EOS (src : element)
| MESSAGE_ASYNC_DONE (src : element)
| MESSAGE_TAG (src : element) (tags : taglist)
| MESSAGE_OTHER (src : element).

(** What one iteration of the polling loop observes: the reading of
    [time.time()] in seconds, and the message [self._bus.pop()] would
    return ([None] when [have_pending()] is false). *)
Record poll := mkPoll { now : float; pending : option message }.

(** What the pipeline does during one call of [scan]. *)
Record env := mkEnv {
  paused_result : state_change_return; (* of set_state(STATE_PAUSED) *)
  start : float;                       (* the first reading of the clock *)
  polls : list poll;                   (* one per iteration of the loop *)
  duration_query : option Z            (* None: gst.QueryError *)
}.

(** [time.time() - start < timeout_s], in binary64 arithmetic. *)
Definition in_time (timeout_s : float) (start : float) (p : poll) : bool :=
  (now p - start <? timeout_s)%float.

(** The body of [_collect]'s loop, over the observations still to come.
    [None]: the observations ran out with the loop still polling. *)
Fixpoint collect_loop (timeout_ms : Z) (timeout_s : float) (start : float)
    (tags : TagMap) (script : list poll) : option (res TagMap) :=
  match script with
  | [] => None
  | p :: script =>
      if in_time timeout_s start p then
        match pending p with
        | None => collect_loop timeout_ms timeout_s start tags script
        | Some (MESSAGE_ERROR _ err) =>
            Some (Raise (ScannerError (locale_decode err)))
        | Some (MESSAGE_EOS _) => Some (Ok tags)
        | Some (MESSAGE_ASYNC_DONE src) =>
            if decide (src = Pipeline) then Some (Ok tags)
            else collect_loop timeout_ms timeout_s start tags script
        | Some (MESSAGE_TAG _ tl) =>
            (* Note that this will only keep the last tag. *)
            collect_loop timeout_ms timeout_s start
                         (convert_taglist tl ∪ tags) script
        | Some (MESSAGE_OTHER _) =>
            collect_loop timeout_ms timeout_s start tags script
        end
      else
        Some (Raise (ScannerError
                       ("Timeout after " ++ format_d timeout_ms ++ "ms")))
  end.

(** The scanner's methods: state transformers that may raise, and may
    still be running when the observations end. *)
Definition M (A : Type) : Type := Scanner -> option (res A * Scanner).

Definition ret {A} (a : A) : M A := fun s => Some (Ok a, s).

Definition bind {A B} (m : M A) (f : A -> M B) : M B := fun s =>
  match m s with
  | None => None
  | Some (Ok a, s) => f a s
  | Some (Raise e, s) => Some (Raise e, s)
  end.

(** [try: body finally: final] *)
Definition try_finally {A} (body : M A) (final : M unit) : M A := fun s =>
  match body s with
  | None => None
  | Some (r, s) =>
      match final s with
      | None => None
      | Some (Ok _, s) => Some (r, s)
      | Some (Raise e, s) => Some (Raise e, s)
      end
  end.

Definition modify (f : Scanner -> Scanner) : M unit :=
  fun s => Some (Ok tt, f s).

Notation "x <- m ;; k" := (bind m (fun x => k))
  (at level 100, m at next level, right associativity).
Notation "m ;;; k" := (bind m (fun _ => k))
  (at level 100, right associativity).

(** *** Notions the statements use *)

(** A terminal event: an error, end-of-stream, or async-done from the
    top-level pipeline. *)
Definition terminal (m : message) : bool :=
  match m with
  | MESSAGE_ERROR _ _ => true
  | MESSAGE_EOS _ => true
  | MESSAGE_ASYNC_DONE src => bool_decide (src = Pipeline)
  | MESSAGE_TAG _ _ => false
  | MESSAGE_OTHER _ => false
  end.

(** An iteration within the timeout that observes no terminal event. *)
Definition quiet (timeout_s : float) (start : float) (p : poll) : bool :=
  in_time timeout_s start p
  && match pending p with
     | Some m => negb (terminal m)
     | None => true
     end.

(** An iteration that ends the loop: the timeout has elapsed, or a
    terminal event is observed. *)
Definition decisive (timeout_s : float) (start : float) (p : poll) : bool :=
  negb (quiet timeout_s start p).

(** The tag maps of the tag events among the observations, oldest first. *)
Fixpoint tag_events (script : list poll) : list TagMap :=
  match script with
  | [] => []
  | p :: script =>
      match pending p with
      | Some (MESSAGE_TAG _ tl) => convert_taglist tl :: tag_events script
      | _ => tag_events script
      end
  end.

(** The value sequence carried by the last of the events that mentions
    the tag name [k]. *)
Fixpoint last_mention (k : pykey) (events : list TagMap)
  : option (list value) :=
  match events with
  | [] => None
  | e :: events =>
      match last_mention k events with
      | Some l => Some l
      | None => e !! k
      end
  end.

(** A terminal event that ends the polling with success. *)
Definition finishes (m : message) : bool :=
  match m with
  | MESSAGE_EOS _ => true
  | MESSAGE_ASYNC_DONE src => bool_decide (src = Pipeline)
  | _ => false
  end.

(** The tags collected so far: [tags] updated with every tag event of the
    observations, in order. *)
Definition collected (tags : TagMap) (script : list poll) : TagMap :=
  foldl (fun tags e => e ∪ tags) tags (tag_events script).

(** A raw duration in whole milliseconds, by truncating division;
    unknown when the query failed or the raw value is negative. *)
Definition whole_milliseconds (raw : option Z) : option Z :=
  match raw with
  | None => None
  | Some d => if d <? 0 then None else Some (Z.quot d MSECOND)
  end.

(** The scanner as [_setup] leaves it, and as [scan] leaves it after the
    calls [mid] between [_collect] and [_reset]. *)
Definition primed (w : env) (uri : string) (s : Scanner) : Scanner :=
  {| _timeout_ms := _timeout_ms s;
     pipe_state := if decide (paused_result w = STATE_CHANGE_NO_PREROLL)
                   then STATE_PLAYING else STATE_PAUSED;
     uribin_uri := Some uri; bus_flushing := false;
     history := history s ++ [CallSetup uri] |}.

Definition left_by_scan (s : Scanner) (uri : string) (mid : list call)
  : Scanner :=
  {| _timeout_ms := _timeout_ms s; pipe_state := STATE_NULL;
     uribin_uri := Some uri; bus_flushing := true;
     history := history s ++ [CallSetup uri; CallCollect] ++ mid
                ++ [CallReset] |}.

Variable w : env.

Definition _setup (uri : string) : M unit :=
  modify (log (CallSetup uri));;;
  modify (set_state STATE_READY);;;
  modify (set_uri uri);;;
  modify (set_flushing false);;;
  modify (set_state STATE_PAUSED);;;
  if decide (paused_result w = STATE_CHANGE_NO_PREROLL)
  then modify (set_state STATE_PLAYING)
  else ret tt.

Definition _collect : M TagMap := fun s =>
  let s := log CallCollect s in
  (* start = time.time(); timeout_s = self._timeout_ms / 1000.0 *)
  match timeout_seconds (_timeout_ms s) with
  | Raise e => Some (Raise e, s)
  | Ok timeout_s =>
      match collect_loop (_timeout_ms s) timeout_s (start w) ∅ (polls w) with
      | None => None
      | Some r => Some (r, s)
      end
  end.

Definition _reset : M unit :=
  modify (log CallReset);;;
  modify (set_flushing true);;;
  modify (set_state STATE_NULL).

(** [self._pipe.query_duration(gst.FORMAT_TIME, None)[0]] *)
Definition pipe_query_duration : res Z :=
  match duration_query w with
  | Some d => Ok d
  | None => Raise QueryError
  end.

Definition _query_duration : M (option Z) :=
  modify (log CallQueryDuration);;;
  fun s =>
    match pipe_query_duration with
    | Raise QueryError => Some (Ok None, s)
    | Raise e => Some (Raise e, s)
    | Ok duration =>
        if duration <? 0 then Some (Ok None, s)
        else Some (Ok (Some (duration / MSECOND)), s)
    end.

(** [scan(uri)]: the [(tags, duration)] pair.  The two are only read after
    the [try] block completed, so the pair is built inside it. *)
Definition scan (uri : string) : M (TagMap * option Z) :=
  try_finally
    (_setup uri;;;
     tags <- _collect;;
     duration <- _query_duration;;
     ret (tags, duration))
    _reset.

End Scan.

(** ** Notions the statements use *)

(** The strings among the values of a sequence. *)
Fixpoint texts (l : list value) : list string :=
  match l with
  | [] => []
  | VStr s :: l => s :: texts l
  | _ :: l => texts l
  end.

(** All values of a tag joined with ["; "]. *)
Definition joined (tags : TagMap) (k : pykey) : string :=
  String.concat "; " (texts (get tags k [])).

(** [s], falling back to [fallback] when [s] is empty. *)
Definition or_else (s fallback : string) : string :=
  if String.eqb s "" then fallback else s.

(** A computed keyword argument as the constructor receives it: not at all
    when it is falsy. *)
Definition passed (f : field) : option field :=
  if field_truthy f then Some f else None.

Definition is_text (v : value) : bool :=
  match v with VStr _ => true | _ => false end.

Definition is_date (v : value) : bool :=
  match v with VDate _ => true | _ => false end.

(** Tag maps as the pipeline's typed tags give them: the text tags hold
    strings, the tags read through their first value have one, and the date
    tag holds dates. *)
Definition all_text (tags : TagMap) (k : pykey) : bool :=
  forallb is_text (get tags k []).

Definition has_first (tags : TagMap) (k : pykey) : bool :=
  match tags !! k with
  | Some [] => false
  | _ => true
  end.

Definition date_typed (tags : TagMap) : bool :=
  match tags !! TAG_DATE with
  | Some (v :: _) => negb (truthy v) || is_date v
  | _ => true
  end.

Definition conforming (tags : TagMap) : bool :=
  forallb (all_text tags)
    [TAG_GENRE; TAG_TITLE; TAG_ORGANIZATION; Some "comment"; TAG_LOCATION;
     TAG_COPYRIGHT]
  && forallb (has_first tags)
       [None; Some "musicbrainz-artistid"; Some "musicbrainz-albumartistid";
        TAG_TRACK_NUMBER; TAG_ALBUM_VOLUME_NUMBER; TAG_BITRATE;
        Some "musicbrainz-trackid"; TAG_ALBUM; TAG_TRACK_COUNT;
        TAG_ALBUM_VOLUME_COUNT; Some "musicbrainz-albumid"]
  && date_typed tags.

(** The first value of a tag, [None] when the tag is absent. *)
Definition first_value (tags : TagMap) (k : pykey) : value :=
  match get tags k [VNone] with
  | v :: _ => v
  | [] => VNone
  end.

(** The release date as the track receives it. *)
Definition date_field (tags : TagMap) : option field :=
  match tags !! TAG_DATE with
  | Some (VDate d :: _) => Some (FVal (VStr (date_isoformat d)))
  | _ => None
  end.

(** Every value sequence of the tag map is non-empty. *)
Definition nonempty_values (tags : TagMap) : Prop :=
  map_Forall (fun _ l => l <> []) tags.

(** Every key of the tag map is a tag name: [None] is not among them. *)
Definition string_keys (tags : TagMap) : Prop := tags !! None = None.

Definition no_id (a : Artist) : Prop := artist_musicbrainz_id a = None.

(** ** Sample runs *)

(** A pipeline whose tag lists are tag maps already and whose errors are
    text already. *)
Definition sample_polls : list (@poll TagMap string) :=
  [ mkPoll 100.125 None;
    mkPoll 100.25
      (Some (MESSAGE_TAG Uridecodebin
               {[ TAG_ARTIST := [VStr "A"; VStr "B"] ]}));
    mkPoll 100.375 (Some (MESSAGE_ASYNC_DONE (Child 0)));
    mkPoll 100.5
      (Some (MESSAGE_TAG Uridecodebin
               {[ TAG_ARTIST := [VStr "C"]; TAG_TITLE := [VStr "Song A"] ]}));
    mkPoll 100.625 (Some (MESSAGE_OTHER Fakesink)) ].

Definition sample_env (last : list (@poll TagMap string))
  : @env TagMap string :=
  {| paused_result := STATE_CHANGE_ASYNC; start := 100;
     polls := sample_polls ++ last; duration_query := Some 1500999999 |}.

Definition eos_poll : @poll TagMap string :=
  mkPoll 100.75 (Some (MESSAGE_EOS Pipeline)).
Definition error_poll : @poll TagMap string :=
  mkPoll 100.75 (Some (MESSAGE_ERROR Uridecodebin "no decoder")).
Definition late_poll : @poll TagMap string :=
  mkPoll 101 (Some (MESSAGE_EOS Pipeline)).

Definition negative_env : @env TagMap string :=
  {| paused_result := STATE_CHANGE_NO_PREROLL; start := 0; polls := [];
     duration_query := Some (-1) |}.

(** ** Further notions: what the normalizer reads and writes *)

(** The keys [tags_to_track] looks up in the tag map ([None] is the default
    identifier key of [_artists]). *)
Definition read_keys : list pykey :=
  [ TAG_COMPOSER; TAG_PERFORMER; TAG_ARTIST; TAG_ALBUM_ARTIST; None;
    Some "musicbrainz-artistid"; Some "musicbrainz-albumartistid";
    TAG_GENRE; TAG_TITLE; TAG_ORGANIZATION; Some "comment"; TAG_LOCATION;
    TAG_COPYRIGHT; TAG_TRACK_NUMBER; TAG_ALBUM_VOLUME_NUMBER; TAG_BITRATE;
    Some "musicbrainz-trackid"; TAG_ALBUM; TAG_TRACK_COUNT;
    TAG_ALBUM_VOLUME_COUNT; Some "musicbrainz-albumid"; TAG_DATE ].

(** The keywords [Track] and [Album] may receive. *)
Definition track_keywords : list string :=
  [ "composers"; "performers"; "artists"; "genre"; "name"; "comment";
    "track_no"; "disc_no"; "bitrate"; "musicbrainz_id"; "date"; "album" ].

Definition album_keywords : list string :=
  [ "artists"; "name"; "num_tracks"; "num_discs"; "musicbrainz_id" ].

Section ScanNotions.
Context {taglist gerror : Type}.

(** What an iteration observes without any effect: nothing pending, an
    event of a kind the loop does not handle, or an async-done event from an
    element that is not the pipeline. *)
Definition skipped (o : option (@message taglist gerror)) : bool :=
  match o with
  | None => true
  | Some (MESSAGE_OTHER _) => true
  | Some (MESSAGE_ASYNC_DONE src) => negb (bool_decide (src = Pipeline))
  | Some (MESSAGE_ERROR _ _) => false
  | Some (MESSAGE_EOS _) => false
  | Some (MESSAGE_TAG _ _) => false
  end.
End ScanNotions.

(** A poll that pops an event of a kind the loop does not handle. *)
Definition other_poll : @poll TagMap string :=
  mkPoll 100.6875 (Some (MESSAGE_OTHER Fakesink)).

(** A float, in its specification form, that is not of the other sign: of
    sign [sx] ([true] is negative), a zero, or not a number. *)
Definition signed (sx : bool) (x : SpecFloat.spec_float) : Prop :=
  match x with
  | SpecFloat.S754_finite s _ _ | SpecFloat.S754_infinity s => s = sx
  | _ => True
  end.

(** * Properties of the normalizer *)

Section Artists.
Implicit Types (tags : TagMap) (name id : pykey).

(** [_artists] by cases on the two sequences it reads. *)
Lemma _artists_unfold tags name id :
  _artists tags name id =
  match tags !! name with
  | None | Some [] => Ok None
  | Some [n] =>
      match tags !! id with
      | Some (i :: _) => Ok (Some [mkArtist n (Some i)])
      | Some [] => Raise IndexError
      | None => Ok (Some [mkArtist n None])
      end
  | Some names => Ok (Some (map (fun n => mkArtist n None) names))
  end.
Proof.
  unfold _artists, getitem, contains.
  destruct (tags !! name) as [[|n [|n' names]]|] eqn:Hname; simpl; try done.
  destruct (tags !! id) as [[|i ids]|]; done.
Qed.

(** Artists built from names alone carry no identifier. *)
Lemma names_only_no_id (names : list value) :
  Forall no_id (map (fun n => mkArtist n None) names).
Proof. induction names; constructor; done. Qed.

Lemma _artists_no_IndexError tags name id :
  nonempty_values tags -> _artists tags name id <> Raise IndexError.
Proof.
  intros Hne. rewrite _artists_unfold.
  destruct (tags !! name) as [[|n [|n' names]]|]; try done.
  destruct (tags !! id) as [[|i ids]|] eqn:Hid; try done.
  by apply Hne in Hid.
Qed.
End Artists.

(** C1, as stated, fails where the identifier tag is present with no value:
    one name, the identifier key in the map, and yet no Artist comes out. *)
Lemma artists_empty_id_sequence :
  let tags : TagMap :=
    {[ TAG_ARTIST := [VStr "Jane Doe"]; Some "musicbrainz-artistid" := [] ]} in
  tags !! TAG_ARTIST = Some [VStr "Jane Doe"]
  /\ contains tags (Some "musicbrainz-artistid") = true
  /\ _artists tags TAG_ARTIST (Some "musicbrainz-artistid") = Raise IndexError
  /\ ~ (exists a, _artists tags TAG_ARTIST (Some "musicbrainz-artistid")
                  = Ok (Some [a])).
Proof.
  cbv zeta. repeat split; try reflexivity.
  intros [a Ha]. vm_compute in Ha. discriminate.
Qed.

(** C1 (amended): the three cases of the artist-extraction helper.  No name
    (absent key or empty sequence): no artists.  Exactly one name and an
    identifier key holding at least one value: one Artist with that name and
    the first identifier.  Otherwise (several names, or no identifier key):
    one Artist per name, none with an identifier, whatever the identifier
    key holds. *)
Theorem artists_cases (tags : TagMap) (name id : pykey) :
  (tags !! name = None \/ tags !! name = Some [] ->
   _artists tags name id = Ok None)
  /\ (forall n i ids,
        tags !! name = Some [n] -> tags !! id = Some (i :: ids) ->
        _artists tags name id = Ok (Some [mkArtist n (Some i)]))
  /\ (forall names,
        tags !! name = Some names -> names <> [] ->
        length names <> 1%nat \/ tags !! id = None ->
        _artists tags name id
        = Ok (Some (map (fun n => mkArtist n None) names))).
Proof.
  rewrite _artists_unfold. split; [|split].
  - intros [-> | ->]; reflexivity.
  - intros n i ids -> ->. reflexivity.
  - intros names -> Hne Hcase.
    destruct names as [|n [|n' names]]; try done.
    destruct Hcase as [Hlen | ->]; [by destruct Hlen | reflexivity].
Qed.

Lemma artists_cases_witness :
  _artists {[ TAG_ARTIST := [VStr "Jane Doe"];
              Some "musicbrainz-artistid" := [VStr "id-1"; VStr "id-2"] ]}
           TAG_ARTIST (Some "musicbrainz-artistid")
  = Ok (Some [mkArtist (VStr "Jane Doe") (Some (VStr "id-1"))])
  /\ _artists {[ TAG_ARTIST := [VStr "A"; VStr "B"];
                 Some "musicbrainz-artistid" := [VStr "id-1"; VStr "id-2"] ]}
              TAG_ARTIST (Some "musicbrainz-artistid")
     = Ok (Some [mkArtist (VStr "A") None; mkArtist (VStr "B") None])
  /\ _artists {[ TAG_ARTIST := [] ]} TAG_ARTIST (Some "musicbrainz-artistid")
     = Ok None.
Proof.
  split; [|split].
  - eapply (proj1 (proj2 (artists_cases _ _ _))); reflexivity.
  - eapply (proj2 (proj2 (artists_cases _ _ _))
              [VStr "A"; VStr "B"]); [reflexivity | discriminate | left; discriminate].
  - apply (proj1 (artists_cases _ _ _)). right. reflexivity.
Defined.

Section Kwargs.
Implicit Types (tags : TagMap) (kwargs : gmap string field).

Lemma bind_Ok {A B} (m : res A) (f : A -> res B) (b : B) :
  m ≫= f = Ok b -> exists a, m = Ok a /\ f a = Ok b.
Proof. destruct m as [a|e]; [eauto | discriminate]. Qed.

Lemma bind_Raise {A B} (m : res A) (f : A -> res B) (e : exn) :
  m ≫= f = Raise e -> m = Raise e \/ exists a, m = Ok a /\ f a = Raise e.
Proof. destruct m as [a|e']; [eauto | intros [= ->]; eauto]. Qed.

Lemma str_items_Ok (l : list value) (ss : list string) :
  str_items l = Ok ss -> ss = texts l.
Proof.
  revert ss. induction l as [|[| s | |] l IH]; intros ss; simpl; try done.
  - by intros [= <-].
  - intros (ss' & Hss' & [= <-])%bind_Ok. by rewrite (IH ss').
Qed.

Lemma str_items_text (l : list value) :
  forallb is_text l = true -> str_items l = Ok (texts l).
Proof.
  induction l as [|[| s | |] l IH]; simpl; try done.
  intros Hl. by rewrite IH.
Qed.

Lemma str_items_Raise (l : list value) (e : exn) :
  str_items l = Raise e -> e = TypeError.
Proof.
  induction l as [|[| s | |] l IH]; simpl; try congruence.
  intros [H | (ss & _ & [=])]%bind_Raise. auto.
Qed.

Lemma join_Ok tags k (s : string) :
  join "; " (get tags k []) = Ok s -> s = joined tags k.
Proof.
  unfold join, joined. intros (ss & Hss & [= <-])%bind_Ok.
  by rewrite (str_items_Ok _ _ Hss).
Qed.

Lemma join_text tags k :
  all_text tags k = true -> join "; " (get tags k []) = Ok (joined tags k).
Proof. unfold all_text, join, joined. intros H. by rewrite str_items_text. Qed.

Lemma join_Raise sep (l : list value) (e : exn) :
  join sep l = Raise e -> e = TypeError.
Proof.
  unfold join. intros [H | (ss & _ & [=])]%bind_Raise.
  by apply str_items_Raise in H.
Qed.

Lemma index0_get_first tags k :
  has_first tags k = true -> exists v, index0 (get tags k [VNone]) = Ok v.
Proof.
  unfold has_first, get. destruct (tags !! k) as [[|v l]|]; simpl; eauto.
  discriminate.
Qed.

Lemma _artists_first tags name id :
  has_first tags id = true -> exists r, _artists tags name id = Ok r.
Proof.
  unfold has_first. rewrite _artists_unfold.
  destruct (tags !! name) as [[|n [|n' names]]|]; eauto.
  destruct (tags !! id) as [[|i ids]|]; eauto. discriminate.
Qed.

Lemma clear_empty_lookup kwargs (k : string) :
  clear_empty kwargs !! k = kwargs !! k ≫= passed.
Proof.
  unfold clear_empty, passed. rewrite map_lookup_filter.
  destruct (kwargs !! k) as [f|]; simpl; [|done].
  destruct (field_truthy f); by repeat case_guard.
Qed.

Lemma fallback_Ok tags k (s s' : string) :
  (if negb (truthy (VStr s)) then join "; " (get tags k []) else Ok s)
  = Ok s' ->
  s' = or_else s (joined tags k).
Proof.
  unfold or_else. simpl. destruct (String.eqb s ""); simpl.
  - apply join_Ok.
  - by intros [= <-].
Qed.

Lemma fallback_Raise tags k (s : string) e :
  (if negb (truthy (VStr s)) then join "; " (get tags k []) else Ok s)
  = Raise e ->
  join "; " (get tags k []) = Raise e.
Proof. by destruct (negb (truthy (VStr s))). Qed.

Lemma index0_get_Ok tags k v :
  index0 (get tags k [VNone]) = Ok v -> v = first_value tags k.
Proof.
  unfold first_value. destruct (get tags k [VNone]); simpl; congruence.
Qed.

Lemma index0_get_Raise tags k e :
  index0 (get tags k [VNone]) = Raise e ->
  tags !! k = Some [] /\ e = IndexError.
Proof.
  unfold get. destruct (tags !! k) as [[|v l]|]; simpl; try discriminate.
  by intros [= <-].
Qed.

(** The two steps that set the release date. *)
Lemma date_cond_Ok tags :
  exists c,
    (if truthy_seq (tags !! TAG_DATE)
     then index0 (get tags TAG_DATE []) ≫= (fun v => Ok (truthy v))
     else Ok false) = Ok c.
Proof.
  unfold get. destruct (tags !! TAG_DATE) as [[|v l]|]; simpl; eauto.
Qed.

Lemma date_step tags (tk0 tk : gmap string field) (c : bool) :
  (if truthy_seq (tags !! TAG_DATE)
   then index0 (get tags TAG_DATE []) ≫= (fun v => Ok (truthy v))
   else Ok false) = Ok c ->
  (if c
   then getitem tags TAG_DATE ≫= fun l => index0 l ≫= fun v =>
        isoformat v ≫= fun d => Ok (<["date" := FVal (VStr d)]> tk0)
   else Ok tk0) = Ok tk ->
  tk = match date_field tags with
       | Some f => <["date" := f]> tk0
       | None => tk0
       end.
Proof.
  unfold date_field, getitem, get.
  destruct (tags !! TAG_DATE) as [[|v l]|]; simpl.
  - by intros [= <-] [= <-].
  - intros [= <-].
    destruct v as [|s|z|d]; simpl;
      [ | destruct (String.eqb s "") | destruct (z =? 0)%Z | ]; simpl;
      try discriminate; by intros [= <-].
  - by intros [= <-] [= <-].
Qed.

Lemma date_step_Raise tags (tk0 : gmap string field) (c : bool) e :
  (if truthy_seq (tags !! TAG_DATE)
   then index0 (get tags TAG_DATE []) ≫= (fun v => Ok (truthy v))
   else Ok false) = Ok c ->
  (if c
   then getitem tags TAG_DATE ≫= fun l => index0 l ≫= fun v =>
        isoformat v ≫= fun d => Ok (<["date" := FVal (VStr d)]> tk0)
   else Ok tk0) = Raise e ->
  e = AttributeError /\ date_typed tags = false.
Proof.
  unfold date_typed, getitem, get.
  destruct (tags !! TAG_DATE) as [[|v l]|]; simpl.
  - by intros [= <-].
  - intros [= <-].
    destruct v as [|s|z|d]; simpl;
      [ | destruct (String.eqb s "") | destruct (z =? 0)%Z | ]; simpl;
      try discriminate; by intros [= <-].
  - by intros [= <-].
Qed.
End Kwargs.

Ltac bind_inv H :=
  repeat (cbv beta zeta in H; apply bind_Ok in H as (? & ? & H)).

Ltac lookup_chain :=
  rewrite ?lookup_insert_ne by done;
  first [ apply lookup_insert_eq | apply lookup_empty ].

Ltac solve_elem := apply list_elem_of_In; simpl; tauto.

Lemma tags_to_kwargs_Ok tags tk ak :
  tags_to_kwargs tags = Ok (tk, ak) ->
  (exists composers performers artists,
     _artists tags TAG_COMPOSER None = Ok composers
     /\ _artists tags TAG_PERFORMER None = Ok performers
     /\ _artists tags TAG_ARTIST (Some "musicbrainz-artistid") = Ok artists
     /\ tk !! "composers" = Some (of_artists composers)
     /\ tk !! "performers" = Some (of_artists performers)
     /\ tk !! "artists" = Some (of_artists artists))
  /\ tk !! "genre" = Some (FVal (VStr (joined tags TAG_GENRE)))
  /\ tk !! "name"
     = Some (FVal (VStr (or_else (joined tags TAG_TITLE)
                                 (joined tags TAG_ORGANIZATION))))
  /\ tk !! "comment"
     = Some (FVal (VStr (or_else (or_else (joined tags (Some "comment"))
                                          (joined tags TAG_LOCATION))
                                 (joined tags TAG_COPYRIGHT))))
  /\ tk !! "track_no" = Some (FVal (first_value tags TAG_TRACK_NUMBER))
  /\ tk !! "disc_no" = Some (FVal (first_value tags TAG_ALBUM_VOLUME_NUMBER))
  /\ tk !! "bitrate" = Some (FVal (first_value tags TAG_BITRATE))
  /\ tk !! "musicbrainz_id"
     = Some (FVal (first_value tags (Some "musicbrainz-trackid")))
  /\ tk !! "date" = date_field tags
  /\ (exists artists,
        _artists tags TAG_ALBUM_ARTIST (Some "musicbrainz-albumartistid")
        = Ok artists
        /\ ak !! "artists" = Some (of_artists artists))
  /\ ak !! "name" = Some (FVal (first_value tags TAG_ALBUM))
  /\ ak !! "num_tracks" = Some (FVal (first_value tags TAG_TRACK_COUNT))
  /\ ak !! "num_discs" = Some (FVal (first_value tags TAG_ALBUM_VOLUME_COUNT))
  /\ ak !! "musicbrainz_id"
     = Some (FVal (first_value tags (Some "musicbrainz-albumid"))).
Proof.
  intros H. unfold tags_to_kwargs in H. bind_inv H.
  injection H as <- <-.
  repeat match goal with
  | H : join _ (get _ _ _) = Ok _ |- _ => apply join_Ok in H
  | H : (if negb (truthy (VStr _)) then _ else _) = Ok _ |- _ =>
      apply fallback_Ok in H
  | H : index0 (get _ _ [VNone]) = Ok _ |- _ => apply index0_get_Ok in H
  | H : (if truthy_seq _ then _ else _) = Ok ?c, H' : (if ?c then _ else _) = Ok _ |- _ =>
      apply (date_step _ _ _ _ H) in H'; clear H
  end.
  subst.
  repeat split; try (destruct (date_field tags); by lookup_chain).
  - eexists _, _, _. repeat split; try eassumption;
      destruct (date_field tags); by lookup_chain.
  - eexists. split; [eassumption | by lookup_chain].
Qed.

(** Where [tags_to_kwargs] can raise, and what. *)
Lemma tags_to_kwargs_Raise tags e :
  tags_to_kwargs tags = Raise e ->
  (exists name id,
     _artists tags name id = Raise e
     /\ (name, id) ∈ [(TAG_COMPOSER, None); (TAG_PERFORMER, None);
                      (TAG_ARTIST, Some "musicbrainz-artistid");
                      (TAG_ALBUM_ARTIST, Some "musicbrainz-albumartistid")])
  \/ (exists k,
        join "; " (get tags k []) = Raise e
        /\ k ∈ [TAG_GENRE; TAG_TITLE; TAG_ORGANIZATION; Some "comment";
                TAG_LOCATION; TAG_COPYRIGHT])
  \/ (exists k,
        tags !! k = Some [] /\ e = IndexError
        /\ k ∈ [TAG_TRACK_NUMBER; TAG_ALBUM_VOLUME_NUMBER; TAG_BITRATE;
                Some "musicbrainz-trackid"; TAG_ALBUM; TAG_TRACK_COUNT;
                TAG_ALBUM_VOLUME_COUNT; Some "musicbrainz-albumid"])
  \/ (e = AttributeError /\ date_typed tags = false).
Proof.
  intros H. unfold tags_to_kwargs in H.
  repeat (cbv beta zeta in H;
          lazymatch type of H with
          | (_ ≫= _) = Raise _ => apply bind_Raise in H as [H | (? & ? & H)]
          end;
          [ | ]).
  all: try discriminate.
  all: try (left; eexists _, _; split; [exact H | solve_elem]).
  all: try apply fallback_Raise in H.
  all: try (right; left; eexists; split; [exact H | solve_elem]).
  all: try (apply index0_get_Raise in H as [H ->]; right; right; left;
            eexists; split; [exact H | split; [done | solve_elem]]).
  - destruct (date_cond_Ok tags) as [c Hc]. congruence.
  - right; right; right. eapply date_step_Raise; eassumption.
Qed.

Lemma tags_to_kwargs_conforming tags :
  conforming tags = true -> exists kwargs, tags_to_kwargs tags = Ok kwargs.
Proof.
  intros Hc. destruct (tags_to_kwargs tags) as [kwargs|e] eqn:H; [eauto|].
  exfalso. unfold conforming in Hc. simpl in Hc.
  rewrite !andb_true_iff in Hc. destruct_and!.
  apply tags_to_kwargs_Raise in H
    as [(name & id & H & Hin) | [(k & H & Hin) | [(k & H & -> & Hin) | [-> H]]]].
  - apply list_elem_of_In in Hin. simpl in Hin.
    destruct (_artists_first tags name id) as [r Hr]; [|congruence].
    intuition (simplify_eq; done).
  - apply list_elem_of_In in Hin. simpl in Hin.
    assert (all_text tags k = true) as Ht by (intuition (subst; done)).
    rewrite (join_text _ _ Ht) in H. discriminate.
  - apply list_elem_of_In in Hin. simpl in Hin.
    assert (has_first tags k = true) as Ht by (intuition (subst; done)).
    unfold has_first in Ht. rewrite H in Ht. discriminate.
  - congruence.
Qed.

Lemma tags_to_kwargs_no_IndexError tags :
  nonempty_values tags -> tags_to_kwargs tags <> Raise IndexError.
Proof.
  intros Hne H.
  apply tags_to_kwargs_Raise in H
    as [(name & id & H & _) | [(k & H & _) | [(k & H & _) | [? _]]]].
  - by apply _artists_no_IndexError in H.
  - by apply join_Raise in H.
  - by apply Hne in H.
  - done.
Qed.

Lemma tags_to_track_Ok tags t :
  tags_to_track tags = Ok t ->
  exists tk ak,
    tags_to_kwargs tags = Ok (tk, ak)
    /\ t = mkTrack (<["album" := Album (clear_empty ak)]> (clear_empty tk)).
Proof.
  unfold tags_to_track. intros ([tk ak] & H & [= <-])%bind_Ok. eauto.
Qed.

Lemma track_lookup tk ak (k : string) :
  k <> "album" ->
  (<["album" := Album (clear_empty ak)]> (clear_empty tk)) !! k
  = tk !! k ≫= passed.
Proof. intros Hk. by rewrite lookup_insert_ne, clear_empty_lookup. Qed.

(** C7: the track name is the ["; "]-join of the title values, or of the
    organization values when that join is empty; the comment is the join of
    the comment values, else of the location values, else of the copyright
    values.  A name or comment that ends up empty is not passed to [Track].
    On a conforming tag map [tags_to_track] does return a track. *)
Theorem track_name_and_comment (tags : TagMap) :
  (conforming tags = true -> exists t, tags_to_track tags = Ok t)
  /\ (forall t, tags_to_track tags = Ok t ->
        track_kwargs t !! "name"
        = passed (FVal (VStr (or_else (joined tags TAG_TITLE)
                                      (joined tags TAG_ORGANIZATION))))
        /\ track_kwargs t !! "comment"
           = passed (FVal (VStr
               (or_else (or_else (joined tags (Some "comment"))
                                 (joined tags TAG_LOCATION))
                        (joined tags TAG_COPYRIGHT))))).
Proof.
  split.
  - intros [kwargs H]%tags_to_kwargs_conforming.
    unfold tags_to_track. rewrite H. simpl. eauto.
  - intros t (tk & ak & H & ->)%tags_to_track_Ok. simpl.
    apply tags_to_kwargs_Ok in H as (_ & _ & Hname & Hcomment & _).
    rewrite !track_lookup by done. by rewrite Hname, Hcomment.
Qed.

Lemma track_name_and_comment_witness :
  let tags : TagMap :=
    {[ TAG_TITLE := []; TAG_ORGANIZATION := [VStr "Org Name"];
       Some "comment" := []; TAG_LOCATION := [];
       TAG_COPYRIGHT := [VStr "(c) 2020"] ]} in
  exists t,
    tags_to_track tags = Ok t
    /\ track_kwargs t !! "name" = Some (FVal (VStr "Org Name"))
    /\ track_kwargs t !! "comment" = Some (FVal (VStr "(c) 2020")).
Proof.
  intros tags.
  destruct (proj1 (track_name_and_comment tags) eq_refl) as [t Ht].
  exists t. split; [exact Ht|].
  destruct (proj2 (track_name_and_comment tags) t Ht) as [-> ->].
  split; reflexivity.
Defined.

(** C8: the falsy keyword values are the empty string, the empty list,
    zero and [None]; [Track] and [Album] receive exactly the computed
    keywords whose value is not falsy; and the track's [album] keyword is
    always an [Album], for the empty tag map too. *)
Theorem falsy_fields_dropped (tags : TagMap) :
  (forall f, field_truthy f = false <->
             f = FVal (VStr "") \/ f = FArtists [] \/ f = FVal (VInt 0)
             \/ f = FVal VNone)
  /\ (forall tk ak, tags_to_kwargs tags = Ok (tk, ak) ->
        exists t album,
          tags_to_track tags = Ok t
          /\ track_kwargs t !! "album" = Some (Album album)
          /\ (forall k, k <> "album" ->
                track_kwargs t !! k = tk !! k ≫= passed)
          /\ (forall k, album !! k = ak !! k ≫= passed))
  /\ (forall t, tags_to_track tags = Ok t ->
        exists album, track_kwargs t !! "album" = Some (Album album))
  /\ tags_to_track ∅ = Ok (mkTrack {[ "album" := Album ∅ ]}).
Proof.
  split; [|split; [|split]].
  - intros f. split.
    + destruct f as [[|s|z|d]|[|a l]|kw]; simpl; try discriminate; auto.
      * rewrite negb_false_iff, String.eqb_eq. intros ->. auto.
      * rewrite negb_false_iff, Z.eqb_eq. intros ->. auto.
    + intros [H | [H | [H | H]]]; by subst.
  - intros tk ak H. unfold tags_to_track. rewrite H. simpl.
    eexists _, _. split; [reflexivity|]. simpl. split; [apply lookup_insert_eq|].
    split.
    + intros k Hk. by apply track_lookup.
    + intros k. apply clear_empty_lookup.
  - intros t (tk & ak & _ & ->)%tags_to_track_Ok. simpl.
    eexists. apply lookup_insert_eq.
  - vm_compute. reflexivity.
Qed.

Lemma falsy_fields_dropped_witness :
  let tags : TagMap :=
    {[ TAG_TITLE := [VStr "Song A"]; TAG_GENRE := [VStr ""];
       TAG_TRACK_NUMBER := [VInt 0]; TAG_BITRATE := [VInt 320000];
       TAG_ALBUM := [VStr "LP"]; TAG_TRACK_COUNT := [VInt 0] ]} in
  exists t album,
    tags_to_track tags = Ok t
    /\ track_kwargs t !! "album" = Some (Album album)
    /\ track_kwargs t !! "name" = Some (FVal (VStr "Song A"))
    /\ track_kwargs t !! "bitrate" = Some (FVal (VInt 320000))
    /\ track_kwargs t !! "genre" = None
    /\ track_kwargs t !! "track_no" = None
    /\ album !! "name" = Some (FVal (VStr "LP"))
    /\ album !! "num_tracks" = None.
Proof.
  intros tags.
  destruct (tags_to_kwargs_conforming tags eq_refl) as [[tk ak] Hk].
  destruct (proj1 (proj2 (falsy_fields_dropped tags)) tk ak Hk)
    as (t & album & Ht & Halbum & Htk & Hak).
  exists t, album. split; [exact Ht|]. split; [exact Halbum|].
  apply tags_to_kwargs_Ok in Hk
    as (_ & Hgenre & Hname & _ & Hno & _ & Hrate & _ & _ & _ & Haname
        & Hcount & _).
  rewrite (Htk "name"), (Htk "bitrate"), (Htk "genre"), (Htk "track_no"),
    !Hak by done.
  rewrite Hname, Hrate, Hgenre, Hno, Haname, Hcount.
  repeat split; reflexivity.
Defined.

Lemma _artists_without_id tags name :
  string_keys tags ->
  _artists tags name None
  = Ok (match tags !! name with
        | None | Some [] => None
        | Some names => Some (map (fun n => mkArtist n None) names)
        end).
Proof.
  unfold string_keys. intros Hkeys. rewrite _artists_unfold, Hkeys.
  by destruct (tags !! name) as [[|n [|n' names]]|].
Qed.

Lemma passed_artists o l :
  passed (of_artists o) = Some (FArtists l) -> o = Some l.
Proof.
  unfold passed. destruct o as [[|a o]|]; simpl; try discriminate.
  by intros [= <-].
Qed.

(** C9: on a tag map whose keys are tag names, [_artists] without an
    identifier key returns the names alone, so no artist among the
    composers and performers of a track carries an identifier. *)
Theorem composers_performers_without_id (tags : TagMap)
    (Hkeys : string_keys tags) :
  (forall name,
     exists r, _artists tags name None = Ok r
               /\ forall l, r = Some l -> Forall no_id l)
  /\ (forall t key l,
        tags_to_track tags = Ok t ->
        key = "composers" \/ key = "performers" ->
        track_kwargs t !! key = Some (FArtists l) ->
        Forall no_id l).
Proof.
  assert (Hart : forall name l,
             _artists tags name None = Ok (Some l) -> Forall no_id l).
  { intros name l. rewrite _artists_without_id by done.
    destruct (tags !! name) as [[|n names]|]; intros [= <-].
    apply (names_only_no_id (n :: names)). }
  split.
  - intros name. rewrite _artists_without_id by done.
    eexists. split; [reflexivity|].
    intros l Hl. apply (Hart name). by rewrite _artists_without_id, Hl.
  - intros t key l (tk & ak & H & ->)%tags_to_track_Ok Hkey. simpl.
    apply tags_to_kwargs_Ok
      in H as ((c & p & a & Hc & Hp & _ & Htc & Htp & _) & _).
    destruct Hkey as [-> | ->]; rewrite track_lookup by done.
    + rewrite Htc. simpl. intros ->%passed_artists. eauto.
    + rewrite Htp. simpl. intros ->%passed_artists. eauto.
Qed.

Lemma composers_performers_without_id_witness :
  let tags : TagMap :=
    {[ TAG_COMPOSER := [VStr "J. S. Bach"];
       TAG_PERFORMER := [VStr "Glenn Gould"];
       Some "musicbrainz-artistid" := [VStr "id-1"] ]} in
  string_keys tags
  /\ exists t l,
       tags_to_track tags = Ok t
       /\ track_kwargs t !! "composers" = Some (FArtists l)
       /\ l = [mkArtist (VStr "J. S. Bach") None]
       /\ Forall no_id l.
Proof.
  intros tags. split; [reflexivity|].
  destruct (tags_to_track tags) as [t|] eqn:Ht;
    [|vm_compute in Ht; discriminate Ht].
  exists t, [mkArtist (VStr "J. S. Bach") None].
  assert (Hl : track_kwargs t !! "composers"
               = Some (FArtists [mkArtist (VStr "J. S. Bach") None])).
  { vm_compute in Ht. injection Ht as <-. reflexivity. }
  split; [reflexivity|]. split; [exact Hl|]. split; [reflexivity|].
  exact (proj2 (composers_performers_without_id tags eq_refl)
               t "composers" _ Ht (or_introl eq_refl) Hl).
Defined.

(** A tag map with the key [None] is the one place where the default
    identifier key is found in the map. *)
Example composers_with_None_key :
  _artists {[ TAG_COMPOSER := [VStr "J. S. Bach"]; None := [VStr "id-0"] ]}
           TAG_COMPOSER None
  = Ok (Some [mkArtist (VStr "J. S. Bach") (Some (VStr "id-0"))]).
Proof. reflexivity. Qed.

(** C10: when every value sequence of the tag map is non-empty, neither
    [_artists] nor [tags_to_track] raises IndexError: every first-value
    access is in bounds.  Without that, one name together with an identifier
    key that holds no value makes [_artists] raise IndexError. *)
Theorem first_value_accesses_in_bounds (tags : TagMap)
    (Hne : nonempty_values tags) :
  (forall name id, _artists tags name id <> Raise IndexError)
  /\ tags_to_track tags <> Raise IndexError
  /\ (forall (tags' : TagMap) name id n,
        tags' !! name = Some [n] -> tags' !! id = Some [] ->
        _artists tags' name id = Raise IndexError).
Proof.
  split; [|split].
  - intros name id. by apply _artists_no_IndexError.
  - unfold tags_to_track.
    intros [H | (kwargs & _ & [=])]%bind_Raise.
    by apply tags_to_kwargs_no_IndexError in H.
  - intros tags' name id n Hname Hid.
    by rewrite _artists_unfold, Hname, Hid.
Qed.

Lemma first_value_accesses_in_bounds_witness :
  let tags : TagMap :=
    {[ TAG_ARTIST := [VStr "Jane Doe"];
       Some "musicbrainz-artistid" := [VStr "id-1"];
       TAG_DATE := [VDate (Date 2014 3 9)] ]} in
  _artists tags TAG_ARTIST (Some "musicbrainz-artistid") <> Raise IndexError
  /\ tags_to_track tags <> Raise IndexError.
Proof.
  intros tags.
  assert (Hne : nonempty_values tags).
  { unfold tags.
    repeat (apply map_Forall_insert_2; [discriminate|]).
    apply map_Forall_empty. }
  destruct (first_value_accesses_in_bounds tags Hne) as (Ha & Ht & _).
  split; [apply Ha | exact Ht].
Defined.

(** ** The normalizer on sample tag maps *)

Example single_artist_with_id :
  exists t,
    tags_to_track {[ TAG_TITLE := [VStr "Song A"];
                     TAG_ARTIST := [VStr "Jane Doe"];
                     Some "musicbrainz-artistid" := [VStr "id-1"] ]} = Ok t
    /\ track_kwargs t !! "name" = Some (FVal (VStr "Song A"))
    /\ track_kwargs t !! "artists"
       = Some (FArtists [mkArtist (VStr "Jane Doe") (Some (VStr "id-1"))]).
Proof. eexists. split; [vm_compute; reflexivity|]. split; reflexivity. Qed.

Example two_artists_without_id :
  exists t,
    tags_to_track {[ TAG_ARTIST := [VStr "A"; VStr "B"] ]} = Ok t
    /\ track_kwargs t !! "name" = None
    /\ track_kwargs t !! "artists"
       = Some (FArtists [mkArtist (VStr "A") None; mkArtist (VStr "B") None]).
Proof. eexists. split; [vm_compute; reflexivity|]. split; reflexivity. Qed.

Example dated_track :
  exists t,
    tags_to_track {[ TAG_DATE := [VDate (Date 2014 3 9)];
                     TAG_TRACK_NUMBER := [VInt 7] ]} = Ok t
    /\ track_kwargs t !! "date" = Some (FVal (VStr "2014-03-09"))
    /\ track_kwargs t !! "track_no" = Some (FVal (VInt 7)).
Proof. eexists. split; [vm_compute; reflexivity|]. split; reflexivity. Qed.

Example empty_track_number_raises :
  tags_to_track {[ TAG_TRACK_NUMBER := [] ]} = Raise IndexError.
Proof. reflexivity. Qed.

Example format_d_timeout : format_d 1000 = "1000" /\ format_d (-5) = "-5".
Proof. split; reflexivity. Qed.

(** * Properties of the scanner *)

Section ScanProps.
Context {taglist gerror : Type}.
Variable convert_taglist : taglist -> TagMap.
Variable locale_decode : gerror -> string.
Implicit Types (p fin late : @poll taglist gerror).
Implicit Types (m : @message taglist gerror).
Implicit Types (tags : TagMap) (w : @env taglist gerror) (s : Scanner).

Implicit Types (k : pykey) (t : Z) (ts st : float).
Implicit Types (pre rest script : list (@poll taglist gerror)).

Local Abbreviation loop := (collect_loop convert_taglist locale_decode).

Lemma collected_cons tags p script :
  collected convert_taglist tags (p :: script)
  = collected convert_taglist (match pending p with
               | Some (MESSAGE_TAG _ tl) => convert_taglist tl ∪ tags
               | _ => tags
               end) script.
Proof.
  unfold collected. simpl.
  by destruct (pending p) as [[]|].
Qed.

(** Quiet iterations only collect tags. *)
Lemma collect_loop_quiet t ts st tags pre rest :
  forallb (quiet ts st) pre = true ->
  loop t ts st tags (pre ++ rest)
  = loop t ts st (collected convert_taglist tags pre) rest.
Proof.
  revert tags. induction pre as [|p pre IH]; intros tags; [done|].
  simpl. unfold quiet at 1.
  intros [[Htime Hm]%andb_prop Hpre]%andb_prop.
  rewrite Htime, collected_cons.
  destruct (pending p) as [[src e|src|src|src tl|src]|]; simpl in Hm;
    try discriminate; try by apply IH.
  case_decide; [by case_bool_decide | by apply IH].
Qed.

Lemma last_mention_foldl k (events : list TagMap) tags :
  foldl (fun tags e => e ∪ tags) tags events !! k
  = match last_mention k events with
    | Some l => Some l
    | None => tags !! k
    end.
Proof.
  revert tags. induction events as [|e events IH]; intros tags; [done|].
  simpl. rewrite IH. destruct (last_mention k events); [done|].
  rewrite lookup_union. by destruct (e !! k), (tags !! k).
Qed.

Lemma collected_lookup k pre :
  collected convert_taglist ∅ pre !! k
  = last_mention k (tag_events convert_taglist pre).
Proof.
  unfold collected. rewrite last_mention_foldl.
  by destruct (last_mention k (tag_events convert_taglist pre)).
Qed.

(** The first decisive iteration decides. *)
Lemma collect_loop_decisive t ts st tags p rest :
  decisive ts st p = true ->
  loop t ts st tags (p :: rest)
  = Some (if in_time ts st p then
            match pending p with
            | Some (MESSAGE_ERROR _ err) =>
                Raise (ScannerError (locale_decode err))
            | _ => Ok tags
            end
          else Raise (ScannerError
                        ("Timeout after " ++ format_d t ++ "ms"))).
Proof.
  unfold decisive, quiet. simpl.
  destruct (in_time ts st p); [|done]. simpl.
  destruct (pending p) as [[src e|src|src|src tl|src]|]; simpl;
    try discriminate; try done.
  case_bool_decide; [|done]. by case_decide.
Qed.

Lemma collect_loop_terminates t ts st tags script :
  existsb (decisive ts st) script = true ->
  is_Some (loop t ts st tags script).
Proof.
  revert tags. induction script as [|p script IH]; intros tags; [done|].
  simpl existsb. destruct (decisive ts st p) eqn:Hp.
  - intros _. rewrite collect_loop_decisive by done. eauto.
  - intros H. apply negb_false_iff in Hp.
    change (p :: script) with ([p] ++ script)%list.
    rewrite collect_loop_quiet by (simpl; by rewrite Hp).
    by apply IH.
Qed.

Lemma _query_duration_unfold w s :
  _query_duration w s
  = Some (Ok (whole_milliseconds (duration_query w)),
          log CallQueryDuration s).
Proof.
  unfold _query_duration, pipe_query_duration, whole_milliseconds, bind,
    modify.
  destruct (duration_query w) as [d|]; [|done].
  destruct (d <? 0) eqn:Hd; [done|].
  apply Z.ltb_ge in Hd. by rewrite Z.quot_div_nonneg.
Qed.

Lemma _setup_unfold w (uri : string) s :
  _setup w uri s = Some (Ok tt, primed w uri s).
Proof.
  unfold _setup, primed, bind, modify, ret.
  by destruct (decide (paused_result w = STATE_CHANGE_NO_PREROLL)).
Qed.

Lemma _reset_unfold s :
  _reset s
  = Some (Ok tt, {| _timeout_ms := _timeout_ms s; pipe_state := STATE_NULL;
                    uribin_uri := uribin_uri s; bus_flushing := true;
                    history := history s ++ [CallReset] |}).
Proof. reflexivity. Qed.

Lemma timeout_seconds_Raise t (e : exn) :
  timeout_seconds t = Raise e -> e = OverflowError.
Proof.
  unfold timeout_seconds, float_of_int.
  destruct (is_infinity _); simpl; [by intros [= <-] | done].
Qed.

Lemma format_d_read t : read_d (format_d t) = Some t.
Proof.
  unfold read_d, format_d. rewrite NilZero.isi.
  - simpl. by rewrite DecimalZ.of_to.
  - destruct t; simpl; try done.
    intros [= H]. by apply DecimalPos.Unsigned.to_uint_nonnil in H.
  - destruct t; simpl; try done.
    intros [= H]. by apply DecimalPos.Unsigned.to_uint_nonnil in H.
Qed.

Lemma _collect_unfold w s :
  _collect convert_taglist locale_decode w s
  = match timeout_seconds (_timeout_ms s) with
    | Raise e => Some (Raise e, log CallCollect s)
    | Ok ts =>
        match loop (_timeout_ms s) ts (start w) ∅ (polls w) with
        | None => None
        | Some r => Some (r, log CallCollect s)
        end
    end.
Proof. reflexivity. Qed.

Lemma scan_unfold w (uri : string) s :
  scan convert_taglist locale_decode w uri s
  = match timeout_seconds (_timeout_ms s) with
    | Raise e => Some (Raise e, left_by_scan s uri [])
    | Ok ts =>
        match loop (_timeout_ms s) ts (start w) ∅ (polls w) with
        | None => None
        | Some (Raise e) => Some (Raise e, left_by_scan s uri [])
        | Some (Ok tags) =>
            Some (Ok (tags, whole_milliseconds (duration_query w)),
                  left_by_scan s uri [CallQueryDuration])
        end
    end.
Proof.
  unfold scan, try_finally, bind at 1 2.
  rewrite _setup_unfold, _collect_unfold.
  change (_timeout_ms (primed w uri s)) with (_timeout_ms s).
  destruct (timeout_seconds (_timeout_ms s)) as [ts|e0].
  - destruct (loop (_timeout_ms s) ts (start w) ∅ (polls w))
      as [[tags|e]|]; [ | | reflexivity].
    + unfold bind. rewrite _query_duration_unfold. unfold ret.
      rewrite _reset_unfold. unfold left_by_scan. simpl.
      by rewrite <- !app_assoc.
    + rewrite _reset_unfold. unfold left_by_scan. simpl.
      by rewrite <- !app_assoc.
  - rewrite _reset_unfold. unfold left_by_scan. simpl.
    by rewrite <- !app_assoc.
Qed.

Lemma resets_left_by_scan s (uri : string) mid :
  mid = [] \/ mid = [CallQueryDuration] ->
  resets (left_by_scan s uri mid) = S (resets s).
Proof.
  intros Hmid. unfold resets, left_by_scan. simpl.
  rewrite filter_app, length_app.
  destruct Hmid as [-> | ->]; simpl; lia.
Qed.

Lemma last_left_by_scan s (uri : string) mid :
  last (history (left_by_scan s uri mid)) = Some CallReset.
Proof.
  unfold left_by_scan. cbn [history]. rewrite !app_assoc. apply last_snoc.
Qed.

Lemma finishes_terminal m : finishes m = true -> terminal m = true.
Proof. by destruct m. Qed.

(** C2: when the polling ends with success, after iterations that were
    all within the timeout and saw no terminal event, the tag map returned
    holds for every tag name the sequence of the last tag event that
    mentions it, and nothing for a name no event mentions.  [ts] is the
    timeout in seconds as [_collect] computes it. *)
Theorem collect_last_write_wins w s ts pre fin rest m :
  timeout_seconds (_timeout_ms s) = Ok ts ->
  polls w = (pre ++ fin :: rest)%list ->
  forallb (quiet ts (start w)) pre = true ->
  in_time ts (start w) fin = true ->
  pending fin = Some m ->
  finishes m = true ->
  exists tags,
    _collect convert_taglist locale_decode w s
    = Some (Ok tags, log CallCollect s)
    /\ forall k, tags !! k = last_mention k (tag_events convert_taglist pre).
Proof.
  intros Hts Hpolls Hpre Htime Hfin Hm.
  exists (collected convert_taglist ∅ pre).
  split; [|intros k; apply collected_lookup].
  rewrite _collect_unfold, Hts, Hpolls, collect_loop_quiet by done.
  rewrite collect_loop_decisive
    by (unfold decisive, quiet;
        by rewrite Htime, Hfin, (finishes_terminal _ Hm)).
  rewrite Htime, Hfin. by destruct m.
Qed.

(** C3 (amended): for a timeout that converts to a float, when the clock
    passes the timeout before any terminal event was observed, [scan]
    raises ScannerError with the message ["Timeout after <timeout>ms"],
    where <timeout> is the decimal numeral of the configured timeout, having
    called [_reset] once.  Whenever [scan] returns or raises, for whatever
    reason, [_reset] was called exactly once, as the last call, leaving the
    pipeline in STATE_NULL and the bus flushing; and [scan] does return or
    raise as soon as some iteration is decisive. *)
Theorem scan_timeout_and_reset w (uri : string) s ts pre late rest :
  timeout_seconds (_timeout_ms s) = Ok ts ->
  polls w = (pre ++ late :: rest)%list ->
  forallb (quiet ts (start w)) pre = true ->
  in_time ts (start w) late = false ->
  (exists s' digits,
     scan convert_taglist locale_decode w uri s
     = Some (Raise (ScannerError ("Timeout after " ++ digits ++ "ms")), s')
     /\ digits = format_d (_timeout_ms s)
     /\ read_d digits = Some (_timeout_ms s)
     /\ resets s' = S (resets s))
  /\ (forall w' (uri' : string) s0 r s1,
        scan convert_taglist locale_decode w' uri' s0 = Some (r, s1) ->
        resets s1 = S (resets s0)
        /\ last (history s1) = Some CallReset
        /\ pipe_state s1 = STATE_NULL /\ bus_flushing s1 = true)
  /\ (forall w' (uri' : string) s0,
        (forall ts', timeout_seconds (_timeout_ms s0) = Ok ts' ->
                     existsb (decisive ts' (start w')) (polls w') = true) ->
        is_Some (scan convert_taglist locale_decode w' uri' s0)).
Proof.
  intros Hts Hpolls Hpre Hlate. split; [|split].
  - rewrite scan_unfold, Hts, Hpolls, collect_loop_quiet by done.
    rewrite collect_loop_decisive
      by (unfold decisive, quiet; by rewrite Hlate).
    rewrite Hlate. eexists _, _. split; [reflexivity|].
    split; [reflexivity|]. split; [apply format_d_read|].
    apply resets_left_by_scan. by left.
  - intros w' uri' s0 r s1. rewrite scan_unfold.
    destruct (timeout_seconds (_timeout_ms s0)) as [ts'|e0].
    + destruct (loop _ _ _ _ _) as [[tags|e]|]; intros [= <- <-].
      * split; [apply resets_left_by_scan; by right|].
        split; [apply last_left_by_scan | done].
      * split; [apply resets_left_by_scan; by left|].
        split; [apply last_left_by_scan | done].
    + intros [= <- <-]. split; [apply resets_left_by_scan; by left|].
      split; [apply last_left_by_scan | done].
  - intros w' uri' s0 H. rewrite scan_unfold.
    destruct (timeout_seconds (_timeout_ms s0)) as [ts'|e0]; [|eauto].
    destruct (collect_loop_terminates (_timeout_ms s0) ts' _ ∅ _
                (H ts' eq_refl)) as [[tags|e] ->]; eauto.
Qed.

(** C4: the first error event popped from the bus, whatever tags were
    collected before and whatever is observed after, makes [_collect] and
    [scan] raise ScannerError with the decoded error text.  [ts] is the
    timeout in seconds as [_collect] computes it. *)
Theorem error_event_terminates w (uri : string) s ts pre p rest src err :
  timeout_seconds (_timeout_ms s) = Ok ts ->
  polls w = (pre ++ p :: rest)%list ->
  forallb (quiet ts (start w)) pre = true ->
  in_time ts (start w) p = true ->
  pending p = Some (MESSAGE_ERROR src err) ->
  _collect convert_taglist locale_decode w s
  = Some (Raise (ScannerError (locale_decode err)), log CallCollect s)
  /\ scan convert_taglist locale_decode w uri s
     = Some (Raise (ScannerError (locale_decode err)),
             left_by_scan s uri []).
Proof.
  intros Hts Hpolls Hpre Htime Hp.
  assert (Hloop : loop (_timeout_ms s) ts (start w) ∅ (polls w)
                  = Some (Raise (ScannerError (locale_decode err)))).
  { rewrite Hpolls, collect_loop_quiet by done.
    rewrite collect_loop_decisive
      by (unfold decisive, quiet; by rewrite Htime, Hp).
    by rewrite Htime, Hp. }
  split.
  - by rewrite _collect_unfold, Hts, Hloop.
  - by rewrite scan_unfold, Hts, Hloop.
Qed.

(** C5: after iterations that only collected tags, an async-done event
    from an element other than the pipeline is skipped and the polling goes
    on with the tags collected so far; an async-done event from the
    pipeline, and any end-of-stream event, end the polling with these
    tags. *)
Theorem async_done_and_eos t ts st tags pre p rest src :
  forallb (quiet ts st) pre = true ->
  in_time ts st p = true ->
  (pending p = Some (MESSAGE_ASYNC_DONE src) -> src <> Pipeline ->
   loop t ts st tags (pre ++ p :: rest)
   = loop t ts st (collected convert_taglist tags pre) rest)
  /\ (pending p = Some (MESSAGE_ASYNC_DONE Pipeline) ->
      loop t ts st tags (pre ++ p :: rest)
      = Some (Ok (collected convert_taglist tags pre)))
  /\ (pending p = Some (MESSAGE_EOS src) ->
      loop t ts st tags (pre ++ p :: rest)
      = Some (Ok (collected convert_taglist tags pre))).
Proof.
  intros Hpre Htime. rewrite collect_loop_quiet by done.
  split; [|split]; intros Hp; simpl; rewrite Htime, Hp.
  - intros Hsrc. by case_decide.
  - by case_decide.
  - done.
Qed.

(** C6: [_query_duration] never raises.  It returns [None] when the
    query fails or the raw duration is negative, and otherwise the raw
    duration divided by [MSECOND], truncated to a whole number of
    milliseconds. *)
Theorem query_duration_total w s :
  exists r,
    _query_duration w s = Some (Ok r, log CallQueryDuration s)
    /\ (duration_query w = None -> r = None)
    /\ (forall d, duration_query w = Some d -> d < 0 -> r = None)
    /\ (forall d, duration_query w = Some d -> 0 <= d ->
          r = Some (Z.quot d MSECOND)
          /\ Z.quot d MSECOND * MSECOND <= d
              < (Z.quot d MSECOND + 1) * MSECOND).
Proof.
  exists (whole_milliseconds (duration_query w)).
  split; [apply _query_duration_unfold|].
  unfold whole_milliseconds. split; [by intros ->|]. split.
  - intros d -> Hd. by rewrite (proj2 (Z.ltb_lt d 0) Hd).
  - intros d -> Hd. rewrite (proj2 (Z.ltb_ge d 0) Hd).
    split; [done|]. rewrite Z.quot_div_nonneg by done.
    unfold MSECOND. pose proof (Z.div_mod d 1000000).
    pose proof (Z.mod_pos_bound d 1000000). lia.
Qed.
End ScanProps.

Lemma collect_last_write_wins_witness :
  exists tags,
    _collect id id (sample_env [eos_poll; error_poll]) (Scanner_init 1000)
    = Some (Ok tags, log CallCollect (Scanner_init 1000))
    /\ tags !! TAG_ARTIST = Some [VStr "C"]
    /\ tags !! TAG_TITLE = Some [VStr "Song A"]
    /\ tags !! TAG_GENRE = None.
Proof.
  destruct (collect_last_write_wins id id
              (sample_env [eos_poll; error_poll]) (Scanner_init 1000) 1
              sample_polls eos_poll [error_poll] (MESSAGE_EOS Pipeline)
              eq_refl eq_refl eq_refl eq_refl eq_refl eq_refl)
    as (tags & Htags & Hk).
  exists tags. split; [exact Htags|].
  rewrite !Hk. repeat split; reflexivity.
Defined.

(** C3, as stated, fails for a timeout too large for a float: computing
    the timeout in seconds raises OverflowError before the loop starts, so
    [scan] raises no ScannerError although no terminal event was observed.
    [_reset] has still been called once.  The same happens for a timeout
    below the range of floats, which every clock reading exceeds. *)
Lemma scan_huge_timeout_overflows :
  scan id id (sample_env []) "file:///song.mp3" (Scanner_init (10 ^ 400))
  = Some (Raise OverflowError,
          left_by_scan (Scanner_init (10 ^ 400)) "file:///song.mp3" [])
  /\ forallb (fun p => match pending p with
                       | Some m => negb (terminal m)
                       | None => true
                       end) (polls (sample_env [])) = true
  /\ resets (left_by_scan (Scanner_init (10 ^ 400)) "file:///song.mp3" [])
     = 1%nat
  /\ ~ (exists msg s',
          scan id id (sample_env []) "file:///song.mp3"
               (Scanner_init (10 ^ 400))
          = Some (Raise (ScannerError msg), s'))
  /\ scan id id (sample_env []) "file:///song.mp3"
          (Scanner_init (- 10 ^ 400))
     = Some (Raise OverflowError,
             left_by_scan (Scanner_init (- 10 ^ 400)) "file:///song.mp3" []).
Proof.
  assert (H : scan id id (sample_env []) "file:///song.mp3"
                (Scanner_init (10 ^ 400))
              = Some (Raise OverflowError,
                      left_by_scan (Scanner_init (10 ^ 400))
                                   "file:///song.mp3" []))
    by (vm_compute; reflexivity).
  split; [exact H|]. split; [reflexivity|]. split; [reflexivity|].
  split; [|vm_compute; reflexivity].
  intros (msg & s' & Hs). rewrite H in Hs. discriminate Hs.
Qed.

Lemma scan_timeout_and_reset_witness :
  (exists s',
     scan id id (sample_env [late_poll]) "file:///song.mp3"
          (Scanner_init 1000)
     = Some (Raise (ScannerError "Timeout after 1000ms"), s')
     /\ resets s' = 1%nat)
  /\ (exists s',
        scan id id (sample_env []) "file:///song.mp3" (Scanner_init 250)
        = Some (Raise (ScannerError "Timeout after 250ms"), s')
        /\ resets s' = 1%nat).
Proof.
  split.
  - destruct (proj1 (scan_timeout_and_reset id id
                       (sample_env [late_poll]) "file:///song.mp3"
                       (Scanner_init 1000) 1 sample_polls late_poll []
                       eq_refl eq_refl eq_refl eq_refl))
      as (s' & digits & Hscan & -> & _ & Hresets).
    exists s'. split; [exact Hscan | exact Hresets].
  - destruct (proj1 (scan_timeout_and_reset id id
                       (sample_env []) "file:///song.mp3"
                       (Scanner_init 250) 0.25 [mkPoll 100.125 None]
                       (mkPoll 100.25
                          (Some (MESSAGE_TAG Uridecodebin
                                   {[ TAG_ARTIST := [VStr "A"; VStr "B"] ]})))
                       (tl (tl sample_polls))
                       eq_refl eq_refl eq_refl eq_refl))
      as (s' & digits & Hscan & -> & _ & Hresets).
    exists s'. split; [exact Hscan | exact Hresets].
Defined.

Lemma error_event_terminates_witness :
  scan id id (sample_env [error_poll; eos_poll]) "file:///song.mp3"
       (Scanner_init 1000)
  = Some (Raise (ScannerError "no decoder"),
          left_by_scan (Scanner_init 1000) "file:///song.mp3" []).
Proof.
  exact (proj2 (error_event_terminates id id
                  (sample_env [error_poll; eos_poll]) "file:///song.mp3"
                  (Scanner_init 1000) 1 sample_polls error_poll [eos_poll]
                  Uridecodebin "no decoder"
                  eq_refl eq_refl eq_refl eq_refl eq_refl)).
Defined.

Lemma async_done_and_eos_witness :
  collect_loop id id 1000 1 100 ∅
    (sample_polls ++ [mkPoll 100.75 (Some (MESSAGE_ASYNC_DONE Fakesink));
                      eos_poll])
  = collect_loop id id 1000 1 100 (collected id ∅ sample_polls) [eos_poll]
  /\ collect_loop id id 1000 1 100 ∅
       (sample_polls
        ++ [mkPoll 100.75 (Some (MESSAGE_ASYNC_DONE Pipeline)); eos_poll])
     = Some (Ok (collected id ∅ sample_polls))
  /\ collect_loop id id 1000 1 100 ∅ (sample_polls ++ [eos_poll])
     = Some (Ok (collected id ∅ sample_polls)).
Proof.
  split; [|split].
  - apply (proj1 (async_done_and_eos id id 1000 1 100 ∅ sample_polls
                    (mkPoll 100.75 (Some (MESSAGE_ASYNC_DONE Fakesink)))
                    [eos_poll] Fakesink eq_refl eq_refl));
      [reflexivity | discriminate].
  - apply (proj1 (proj2 (async_done_and_eos id id 1000 1 100 ∅
                    sample_polls
                    (mkPoll 100.75 (Some (MESSAGE_ASYNC_DONE Pipeline)))
                    [eos_poll] Pipeline eq_refl eq_refl))).
    reflexivity.
  - apply (proj2 (proj2 (async_done_and_eos id id 1000 1 100 ∅
                    sample_polls eos_poll [] Pipeline eq_refl eq_refl))).
    reflexivity.
Defined.

Lemma query_duration_total_witness :
  _query_duration (sample_env []) (Scanner_init 1000)
  = Some (Ok (Some 1500), log CallQueryDuration (Scanner_init 1000))
  /\ _query_duration negative_env (Scanner_init 1000)
     = Some (Ok None, log CallQueryDuration (Scanner_init 1000)).
Proof.
  split.
  - destruct (query_duration_total (sample_env []) (Scanner_init 1000))
      as (r & Hr & _ & _ & Hpos).
    destruct (Hpos 1500999999 eq_refl) as [-> _]; [done|]. exact Hr.
  - destruct (query_duration_total negative_env (Scanner_init 1000))
      as (r & Hr & _ & Hneg & _).
    rewrite (Hneg (-1) eq_refl) in Hr by done. exact Hr.
Defined.

(** Conversion of an integer rounds to nearest, ties to even, and
    overflows from [2^1024 - 2^970] on. *)
Example float_of_int_rounds :
  float_of_int (2 ^ 53 + 1) = Ok 0x1p+53%float
  /\ float_of_int (2 ^ 53 + 3) = Ok 0x1.0000000000002p+53%float
  /\ float_of_int (2 ^ 1024 - 2 ^ 970 - 1) = Ok 0x1.fffffffffffffp+1023%float
  /\ float_of_int (2 ^ 1024 - 2 ^ 970) = Raise OverflowError.
Proof. repeat split; vm_compute; reflexivity. Qed.

(** The loop bound is the rounded quotient: 300 ms give a bound just below
    3/10, and an elapsed time equal to that bound is already a timeout, also
    with end-of-stream pending. *)
Example timeout_bound_is_rounded :
  timeout_seconds 300 = Ok 0x1.3333333333333p-2%float
  /\ scan id id
          {| paused_result := STATE_CHANGE_SUCCESS; start := 0;
             polls := [mkPoll 0x1.3333333333333p-2
                              (Some (MESSAGE_EOS Pipeline))];
             duration_query := None |}
          "file:///song.mp3" (Scanner_init 300)
     = Some (Raise (ScannerError "Timeout after 300ms"),
             left_by_scan (Scanner_init 300) "file:///song.mp3" []).
Proof. split; reflexivity. Qed.

(** A successful scan. *)
Example scan_success :
  exists tags,
    scan id id (sample_env [eos_poll]) "file:///song.mp3" (Scanner_init 1000)
    = Some (Ok (tags, Some 1500),
            left_by_scan (Scanner_init 1000) "file:///song.mp3"
                         [CallQueryDuration])
    /\ tags !! TAG_ARTIST = Some [VStr "C"].
Proof.
  eexists. split; [vm_compute; reflexivity | reflexivity].
Qed.

(** * Further properties of the normalizer *)

Lemma tags_to_track_conforming (tags : TagMap) :
  conforming tags = true -> exists t, tags_to_track tags = Ok t.
Proof.
  intros [kwargs H]%tags_to_kwargs_conforming.
  unfold tags_to_track. rewrite H. simpl. eauto.
Qed.

Lemma passed_of_artists (r : option (list Artist)) :
  r <> Some [] -> passed (of_artists r) = FArtists <$> r.
Proof. by destruct r as [[|a l]|]. Qed.

Lemma _artists_not_empty (tags : TagMap) (name id : pykey) r :
  _artists tags name id = Ok r -> r <> Some [].
Proof.
  rewrite _artists_unfold.
  destruct (tags !! name) as [[|n [|n' names]]|]; try by intros [= <-].
  destruct (tags !! id) as [[|i ids]|]; try done; by intros [= <-].
Qed.

Lemma names_of_names_only (names : list value) :
  map artist_name (map (fun n => mkArtist n None) names) = names.
Proof. induction names as [|x names IH]; [done|]. simpl. by rewrite IH. Qed.

(** X1: [_artists] returns no list exactly when the name tag is absent or
    empty, and otherwise a non-empty list with one artist per name value,
    in the order of the values and with the values as names. *)
Theorem artists_names_preserved (tags : TagMap) (name id : pykey) :
  (_artists tags name id = Ok None <->
   tags !! name = None \/ tags !! name = Some [])
  /\ (forall l, _artists tags name id = Ok (Some l) ->
        l <> [] /\ tags !! name = Some (map artist_name l)).
Proof.
  rewrite _artists_unfold.
  destruct (tags !! name) as [[|n [|n' names]]|] eqn:Hname.
  - split; [by split; auto|]. done.
  - split.
    + split; [|by intros [|]].
      destruct (tags !! id) as [[|i ids]|]; done.
    + intros l. destruct (tags !! id) as [[|i ids]|]; try done;
        by intros [= <-].
  - split; [split; [done | by intros [|]]|].
    intros l [= <-]. split; [done|].
    simpl. by rewrite names_of_names_only.
  - split; [by split; auto|]. done.
Qed.

Lemma artists_names_preserved_witness :
  exists l,
    _artists {[ TAG_ARTIST := [VStr "A"; VStr "B"; VStr "A"] ]} TAG_ARTIST
             (Some "musicbrainz-artistid") = Ok (Some l)
    /\ l <> []
    /\ map artist_name l = [VStr "A"; VStr "B"; VStr "A"].
Proof.
  exists [mkArtist (VStr "A") None; mkArtist (VStr "B") None;
          mkArtist (VStr "A") None].
  assert (H : _artists {[ TAG_ARTIST := [VStr "A"; VStr "B"; VStr "A"] ]}
                TAG_ARTIST (Some "musicbrainz-artistid")
              = Ok (Some [mkArtist (VStr "A") None; mkArtist (VStr "B") None;
                          mkArtist (VStr "A") None])) by reflexivity.
  destruct (proj2 (artists_names_preserved _ _ _) _ H) as [Hne Hnames].
  split; [exact H|]. split; [exact Hne | reflexivity].
Defined.

(** X2: [_artists] raises in one situation only: exactly one name value
    together with an identifier key that is in the map with no value; the
    exception is then IndexError.  Its dictionary subscripts never raise
    KeyError. *)
Theorem artists_raises_iff (tags : TagMap) (name id : pykey) (e : exn) :
  _artists tags name id = Raise e <->
  e = IndexError /\ (exists n, tags !! name = Some [n])
  /\ tags !! id = Some [].
Proof.
  rewrite _artists_unfold.
  destruct (tags !! name) as [[|n [|n' names]]|] eqn:Hname.
  - split; [done | by intros (_ & [n' [=]] & _)].
  - destruct (tags !! id) as [[|i ids]|].
    + split; [intros [= <-]; eauto | by intros (-> & _)].
    + split; [done | by intros (_ & _ & [=])].
    + split; [done | by intros (_ & _ & [=])].
  - split; [done | by intros (_ & [n0 [=]] & _)].
  - split; [done | by intros (_ & [n' [=]] & _)].
Qed.

Lemma tags_to_kwargs_agree (t1 t2 : TagMap) :
  Forall (fun k => t1 !! k = t2 !! k) read_keys ->
  tags_to_kwargs t1 = tags_to_kwargs t2.
Proof.
  unfold read_keys. intros H.
  repeat (apply Forall_cons in H as [? H]). clear H.
  unfold tags_to_kwargs, _artists, getitem, get, contains,
    TAG_COMPOSER, TAG_PERFORMER, TAG_ARTIST, TAG_ALBUM_ARTIST, TAG_GENRE,
    TAG_TITLE, TAG_ORGANIZATION, TAG_LOCATION, TAG_COPYRIGHT,
    TAG_TRACK_NUMBER, TAG_ALBUM_VOLUME_NUMBER, TAG_BITRATE, TAG_ALBUM,
    TAG_TRACK_COUNT, TAG_ALBUM_VOLUME_COUNT, TAG_DATE in *.
  repeat match goal with
         | H : t1 !! _ = t2 !! _ |- _ => rewrite H; clear H
         end.
  reflexivity.
Qed.

(** X3: [tags_to_track] reads the tag map at the keys of [read_keys] only:
    adding, changing or removing any other tag changes neither the track
    nor the exception. *)
Theorem unread_tags_ignored (tags : TagMap) (k : pykey) (l : list value) :
  k ∉ read_keys ->
  tags_to_track (<[k := l]> tags) = tags_to_track tags
  /\ tags_to_track (delete k tags) = tags_to_track tags.
Proof.
  intros Hk. unfold tags_to_track.
  assert (Hother : Forall (fun k' => k <> k') read_keys).
  { apply Forall_forall. by intros k' Hk' ->. }
  split; (erewrite tags_to_kwargs_agree; [reflexivity|]);
    (eapply Forall_impl; [exact Hother|]); intros k' Hk'; simpl.
  - by apply lookup_insert_ne.
  - by apply lookup_delete_ne.
Qed.

Lemma unread_tags_ignored_witness :
  tags_to_track {[ Some "encoder" := [VStr "lame"];
                   TAG_TITLE := [VStr "Song A"] ]}
  = tags_to_track {[ TAG_TITLE := [VStr "Song A"] ]}.
Proof.
  refine (proj1 (unread_tags_ignored {[ TAG_TITLE := [VStr "Song A"] ]}
                   (Some "encoder") [VStr "lame"] _)).
  unfold read_keys. intros H. apply list_elem_of_In in H. simpl in H.
  repeat (destruct H as [H | H]; [discriminate H|]). exact H.
Defined.

Lemma join_Raise_text sep (l : list value) (e : exn) :
  join sep l = Raise e -> forallb is_text l = false.
Proof.
  unfold join. destruct (forallb is_text l) eqn:Hl; [|done].
  by rewrite (str_items_text _ Hl).
Qed.

(** X4: [tags_to_track] raises only IndexError, TypeError or
    AttributeError, each for one reason: an empty value sequence under a
    key read through its first value; a value that is not a string in a
    tag that is joined; a first date value that is truthy and not a date.
    It never raises KeyError. *)
Theorem tags_to_track_raises (tags : TagMap) (e : exn) :
  tags_to_track tags = Raise e ->
  (e = IndexError
   /\ exists k, has_first tags k = false
       /\ k ∈ [ None; Some "musicbrainz-artistid";
                Some "musicbrainz-albumartistid"; TAG_TRACK_NUMBER;
                TAG_ALBUM_VOLUME_NUMBER; TAG_BITRATE;
                Some "musicbrainz-trackid"; TAG_ALBUM; TAG_TRACK_COUNT;
                TAG_ALBUM_VOLUME_COUNT; Some "musicbrainz-albumid" ])
  \/ (e = TypeError
      /\ exists k, all_text tags k = false
          /\ k ∈ [ TAG_GENRE; TAG_TITLE; TAG_ORGANIZATION; Some "comment";
                   TAG_LOCATION; TAG_COPYRIGHT ])
  \/ (e = AttributeError /\ date_typed tags = false).
Proof.
  unfold tags_to_track. intros [H | (kwargs & _ & [=])]%bind_Raise.
  apply tags_to_kwargs_Raise in H
    as [(name & id & H & Hin) | [(k & H & Hin) | [(k & H & -> & Hin) | H]]].
  - left. rewrite _artists_unfold in H.
    destruct (tags !! name) as [[|n [|n' names]]|]; try done.
    destruct (tags !! id) as [[|i ids]|] eqn:Hid; try done.
    injection H as <-. split; [done|]. exists id.
    split; [unfold has_first; by rewrite Hid|].
    apply list_elem_of_In in Hin. simpl in Hin.
    apply list_elem_of_In. simpl.
    intuition (simplify_eq; auto).
  - right; left. split; [by apply join_Raise in H|]. exists k.
    split; [by apply join_Raise_text in H|].
    apply list_elem_of_In in Hin. apply list_elem_of_In. simpl in *. tauto.
  - left. split; [done|]. exists k.
    split; [unfold has_first; by rewrite H|].
    apply list_elem_of_In in Hin. apply list_elem_of_In. simpl in *. tauto.
  - by right; right.
Qed.

Lemma tags_to_track_raises_witness :
  tags_to_track {[ TAG_TITLE := [VStr "Song A"; VInt 3] ]} = Raise TypeError
  /\ exists k, all_text {[ TAG_TITLE := [VStr "Song A"; VInt 3] ]} k = false
       /\ k ∈ [ TAG_GENRE; TAG_TITLE; TAG_ORGANIZATION; Some "comment";
                TAG_LOCATION; TAG_COPYRIGHT ].
Proof.
  assert (H : tags_to_track {[ TAG_TITLE := [VStr "Song A"; VInt 3] ]}
              = Raise TypeError) by reflexivity.
  split; [exact H|].
  destruct (tags_to_track_raises _ _ H) as [[He _] | [[_ Hk] | [He _]]];
    [discriminate He | exact Hk | discriminate He].
Defined.

(** X5: in a track that [tags_to_track] returns, the genre is the
    ["; "]-join of the genre values, and the track number, disc number,
    bitrate and identifier are the first values of their tags ([None] for
    an absent tag); each is passed to [Track] only when it is not falsy, so
    a track number 0 or an empty genre is not passed. *)
Theorem track_scalar_fields (tags : TagMap) (t : Track) :
  tags_to_track tags = Ok t ->
  track_kwargs t !! "genre" = passed (FVal (VStr (joined tags TAG_GENRE)))
  /\ track_kwargs t !! "track_no"
     = passed (FVal (first_value tags TAG_TRACK_NUMBER))
  /\ track_kwargs t !! "disc_no"
     = passed (FVal (first_value tags TAG_ALBUM_VOLUME_NUMBER))
  /\ track_kwargs t !! "bitrate"
     = passed (FVal (first_value tags TAG_BITRATE))
  /\ track_kwargs t !! "musicbrainz_id"
     = passed (FVal (first_value tags (Some "musicbrainz-trackid"))).
Proof.
  intros (tk & ak & H & ->)%tags_to_track_Ok. simpl.
  apply tags_to_kwargs_Ok
    in H as (_ & Hgenre & _ & _ & Hno & Hdisc & Hrate & Hid & _).
  rewrite !track_lookup by done.
  by rewrite Hgenre, Hno, Hdisc, Hrate, Hid.
Qed.

Lemma track_scalar_fields_witness :
  exists t,
    tags_to_track {[ TAG_GENRE := [VStr "Rock"; VStr "Pop"];
                     TAG_TRACK_NUMBER := [VInt 0];
                     TAG_ALBUM_VOLUME_NUMBER := [VInt 2; VInt 3];
                     TAG_BITRATE := [VInt 320000] ]} = Ok t
    /\ track_kwargs t !! "genre" = Some (FVal (VStr "Rock; Pop"))
    /\ track_kwargs t !! "track_no" = None
    /\ track_kwargs t !! "disc_no" = Some (FVal (VInt 2))
    /\ track_kwargs t !! "bitrate" = Some (FVal (VInt 320000))
    /\ track_kwargs t !! "musicbrainz_id" = None.
Proof.
  destruct (tags_to_track_conforming
              {[ TAG_GENRE := [VStr "Rock"; VStr "Pop"];
                 TAG_TRACK_NUMBER := [VInt 0];
                 TAG_ALBUM_VOLUME_NUMBER := [VInt 2; VInt 3];
                 TAG_BITRATE := [VInt 320000] ]}) as [t Ht]; [reflexivity|].
  exists t. split; [exact Ht|].
  destruct (track_scalar_fields _ _ Ht) as (-> & -> & -> & -> & ->).
  repeat split; reflexivity.
Defined.

Lemma album_lookup tk ak :
  (<["album" := Album (clear_empty ak)]> (clear_empty tk)) !! "album"
  = Some (Album (clear_empty ak)).
Proof. apply lookup_insert_eq. Qed.

(** X6: a track that [tags_to_track] returns owns an album whose name,
    track count, disc count and identifier are the first values of their
    tags, each passed to [Album] only when it is not falsy. *)
Theorem album_scalar_fields (tags : TagMap) (t : Track) :
  tags_to_track tags = Ok t ->
  exists album,
    track_kwargs t !! "album" = Some (Album album)
    /\ album !! "name" = passed (FVal (first_value tags TAG_ALBUM))
    /\ album !! "num_tracks"
       = passed (FVal (first_value tags TAG_TRACK_COUNT))
    /\ album !! "num_discs"
       = passed (FVal (first_value tags TAG_ALBUM_VOLUME_COUNT))
    /\ album !! "musicbrainz_id"
       = passed (FVal (first_value tags (Some "musicbrainz-albumid"))).
Proof.
  intros (tk & ak & H & ->)%tags_to_track_Ok. simpl.
  apply tags_to_kwargs_Ok in H
    as (_ & _ & _ & _ & _ & _ & _ & _ & _ & _ & Hname & Hn & Hd & Hid).
  exists (clear_empty ak). split; [apply album_lookup|].
  rewrite !clear_empty_lookup. by rewrite Hname, Hn, Hd, Hid.
Qed.

Lemma album_scalar_fields_witness :
  exists t album,
    tags_to_track {[ TAG_ALBUM := [VStr "LP"; VStr "LP (remaster)"];
                     TAG_TRACK_COUNT := [VInt 12];
                     TAG_ALBUM_VOLUME_COUNT := [VInt 0] ]} = Ok t
    /\ track_kwargs t !! "album" = Some (Album album)
    /\ album !! "name" = Some (FVal (VStr "LP"))
    /\ album !! "num_tracks" = Some (FVal (VInt 12))
    /\ album !! "num_discs" = None
    /\ album !! "musicbrainz_id" = None.
Proof.
  destruct (tags_to_track_conforming
              {[ TAG_ALBUM := [VStr "LP"; VStr "LP (remaster)"];
                 TAG_TRACK_COUNT := [VInt 12];
                 TAG_ALBUM_VOLUME_COUNT := [VInt 0] ]}) as [t Ht];
    [reflexivity|].
  destruct (album_scalar_fields _ _ Ht) as (album & Ha & H1 & H2 & H3 & H4).
  exists t, album. split; [exact Ht|]. split; [exact Ha|].
  rewrite H1, H2, H3, H4. repeat split; reflexivity.
Defined.

Lemma date_isoformat_truthy (d : date) :
  passed (FVal (VStr (date_isoformat d)))
  = Some (FVal (VStr (date_isoformat d))).
Proof.
  unfold passed, date_isoformat. simpl.
  by destruct (zero_pad 4 (year d)).
Qed.

(** X7: a track that [tags_to_track] returns has a release date exactly
    when the date tag has a first value that is a date; the date passed is
    that value in ISO format, and later date values are not looked at. *)
Theorem track_date_field (tags : TagMap) (t : Track) :
  tags_to_track tags = Ok t ->
  track_kwargs t !! "date"
  = match tags !! TAG_DATE with
    | Some (VDate d :: _) => Some (FVal (VStr (date_isoformat d)))
    | _ => None
    end.
Proof.
  intros (tk & ak & H & ->)%tags_to_track_Ok. simpl.
  apply tags_to_kwargs_Ok in H as (_ & _ & _ & _ & _ & _ & _ & _ & Hdate & _).
  rewrite track_lookup by done. rewrite Hdate. unfold date_field.
  destruct (tags !! TAG_DATE) as [[|[| s | z | d] l]|]; try done.
  apply date_isoformat_truthy.
Qed.

Lemma track_date_field_witness :
  exists t,
    tags_to_track {[ TAG_DATE := [VDate (Date 2014 3 9);
                                  VDate (Date 1999 12 31)] ]} = Ok t
    /\ track_kwargs t !! "date" = Some (FVal (VStr "2014-03-09")).
Proof.
  destruct (tags_to_track_conforming
              {[ TAG_DATE := [VDate (Date 2014 3 9);
                              VDate (Date 1999 12 31)] ]}) as [t Ht];
    [reflexivity|].
  exists t. split; [exact Ht|].
  rewrite (track_date_field _ _ Ht). reflexivity.
Defined.

(** X8: in a track that [tags_to_track] returns, the track's artists are
    what [_artists] gives for the artist tag with the key
    ["musicbrainz-artistid"], and the album's artists what it gives for the
    album-artist tag with the key ["musicbrainz-albumartistid"]; the keyword
    is not passed when there is no such artist. *)
Theorem track_and_album_artists (tags : TagMap) (t : Track) :
  tags_to_track tags = Ok t ->
  exists artists album_artists album,
    _artists tags TAG_ARTIST (Some "musicbrainz-artistid") = Ok artists
    /\ track_kwargs t !! "artists" = FArtists <$> artists
    /\ _artists tags TAG_ALBUM_ARTIST (Some "musicbrainz-albumartistid")
       = Ok album_artists
    /\ track_kwargs t !! "album" = Some (Album album)
    /\ album !! "artists" = FArtists <$> album_artists.
Proof.
  intros (tk & ak & H & ->)%tags_to_track_Ok. simpl.
  apply tags_to_kwargs_Ok in H
    as ((c & p & a & _ & _ & Ha & _ & _ & Hta) & _ & _ & _ & _ & _ & _ & _
        & _ & (aa & Haa & Hak) & _).
  exists a, aa, (clear_empty ak).
  split; [exact Ha|]. split.
  { rewrite track_lookup by done. rewrite Hta. simpl.
    apply passed_of_artists. by eapply _artists_not_empty. }
  split; [exact Haa|]. split; [apply album_lookup|].
  rewrite clear_empty_lookup, Hak. simpl.
  apply passed_of_artists. by eapply _artists_not_empty.
Qed.

Lemma track_and_album_artists_witness :
  exists t album,
    tags_to_track {[ TAG_ARTIST := [VStr "Jane Doe"];
                     Some "musicbrainz-artistid" := [VStr "id-1"];
                     TAG_ALBUM_ARTIST := [VStr "A"; VStr "B"];
                     Some "musicbrainz-albumartistid"
                       := [VStr "id-2"; VStr "id-3"] ]} = Ok t
    /\ track_kwargs t !! "artists"
       = Some (FArtists [mkArtist (VStr "Jane Doe") (Some (VStr "id-1"))])
    /\ track_kwargs t !! "album" = Some (Album album)
    /\ album !! "artists"
       = Some (FArtists [mkArtist (VStr "A") None; mkArtist (VStr "B") None]).
Proof.
  destruct (tags_to_track_conforming
              {[ TAG_ARTIST := [VStr "Jane Doe"];
                 Some "musicbrainz-artistid" := [VStr "id-1"];
                 TAG_ALBUM_ARTIST := [VStr "A"; VStr "B"];
                 Some "musicbrainz-albumartistid"
                   := [VStr "id-2"; VStr "id-3"] ]}) as [t Ht];
    [reflexivity|].
  destruct (track_and_album_artists _ _ Ht)
    as (a & aa & album & Ha & Hta & Haa & Halbum & Hak).
  exists t, album. split; [exact Ht|].
  rewrite Hta, Hak.
  assert (a = Some [mkArtist (VStr "Jane Doe") (Some (VStr "id-1"))]) as ->.
  { assert (Ok a = Ok (Some [mkArtist (VStr "Jane Doe")
                                      (Some (VStr "id-1"))])) as [= ->];
      [rewrite <- Ha; reflexivity | reflexivity]. }
  assert (aa = Some [mkArtist (VStr "A") None; mkArtist (VStr "B") None])
    as ->.
  { assert (Ok aa = Ok (Some [mkArtist (VStr "A") None;
                              mkArtist (VStr "B") None])) as [= ->];
      [rewrite <- Haa; reflexivity | reflexivity]. }
  split; [reflexivity|]. split; [exact Halbum | reflexivity].
Defined.

Ltac bound_keys Hf :=
  repeat match type of Hf with
         | (<[?i := _]> _) !! ?k = Some _ =>
             destruct (decide (k = i)) as [->|?];
             [solve_elem | rewrite lookup_insert_ne in Hf by done]
         end;
  by rewrite lookup_empty in Hf.

Lemma tags_to_kwargs_keywords (tags : TagMap) tk ak :
  tags_to_kwargs tags = Ok (tk, ak) ->
  (forall k, is_Some (tk !! k) -> k ∈ track_keywords)
  /\ (forall k, is_Some (ak !! k) -> k ∈ album_keywords).
Proof.
  intros H. unfold tags_to_kwargs in H. bind_inv H.
  injection H as <- <-.
  match goal with
  | H : (if truthy_seq _ then _ else _) = Ok ?c,
    H' : (if ?c then _ else _) = Ok _ |- _ =>
      apply (date_step _ _ _ _ H) in H'; clear H; rename H' into Htk
  end.
  unfold track_keywords, album_keywords.
  split; intros k [f Hf].
  - rewrite Htk in Hf. destruct (date_field tags); bound_keys Hf.
  - bound_keys Hf.
Qed.

(** X9: [Track] and [Album] never receive a keyword outside their
    fields: a returned track holds keywords among [track_keywords] only, and
    its album keywords among [album_keywords] only. *)
Theorem only_known_keywords (tags : TagMap) (t : Track) :
  tags_to_track tags = Ok t ->
  (forall k, is_Some (track_kwargs t !! k) -> k ∈ track_keywords)
  /\ exists album,
       track_kwargs t !! "album" = Some (Album album)
       /\ forall k, is_Some (album !! k) -> k ∈ album_keywords.
Proof.
  intros (tk & ak & H & ->)%tags_to_track_Ok. simpl.
  apply tags_to_kwargs_keywords in H as [Htk Hak]. split.
  - intros k [f Hf]. destruct (decide (k = "album")) as [->|Hk].
    + unfold track_keywords. solve_elem.
    + rewrite track_lookup in Hf by done. apply Htk.
      destruct (tk !! k); [eauto | done].
  - exists (clear_empty ak). split; [apply album_lookup|].
    intros k [f Hf]. rewrite clear_empty_lookup in Hf. apply Hak.
    destruct (ak !! k); [eauto | done].
Qed.

Lemma only_known_keywords_witness :
  exists t,
    tags_to_track {[ TAG_TITLE := [VStr "Song A"];
                     Some "encoder" := [VStr "lame"] ]} = Ok t
    /\ track_kwargs t !! "encoder" = None
    /\ track_kwargs t !! "title" = None.
Proof.
  destruct (tags_to_track_conforming
              {[ TAG_TITLE := [VStr "Song A"];
                 Some "encoder" := [VStr "lame"] ]}) as [t Ht];
    [reflexivity|].
  exists t. split; [exact Ht|].
  destruct (only_known_keywords _ _ Ht) as [Hk _].
  split.
  - destruct (track_kwargs t !! "encoder") eqn:He; [|reflexivity].
    exfalso. assert (Hin : "encoder" ∈ track_keywords) by (apply Hk; eauto).
    apply list_elem_of_In in Hin. simpl in Hin.
    repeat (destruct Hin as [Hin | Hin]; [discriminate Hin|]). exact Hin.
  - destruct (track_kwargs t !! "title") eqn:He; [|reflexivity].
    exfalso. assert (Hin : "title" ∈ track_keywords) by (apply Hk; eauto).
    apply list_elem_of_In in Hin. simpl in Hin.
    repeat (destruct Hin as [Hin | Hin]; [discriminate Hin|]). exact Hin.
Defined.

(** * Further properties of the scanner *)

(** ** Signs in binary64 arithmetic *)

Section FloatSigns.
Import SpecFloat.

Lemma binary_round_aux_signed prec emax sx mx ex lx :
  signed sx (binary_round_aux prec emax sx mx ex lx).
Proof.
  unfold binary_round_aux.
  destruct (shr_fexp prec emax mx ex lx) as [mrs' e'].
  destruct (shr_fexp _ _ _ e' loc_Exact) as [mrs'' e''].
  destruct (shr_m mrs''); simpl; try exact I.
  destruct (e'' <=? emax - prec); reflexivity.
Qed.

Lemma binary_round_signed prec emax sx mx ex :
  signed sx (binary_round prec emax sx mx ex).
Proof.
  unfold binary_round. destruct (shl_align _ _ _) as [mz ez].
  apply binary_round_aux_signed.
Qed.

Lemma binary_normalize_signed prec emax z e :
  signed (z <? 0) (binary_normalize prec emax z e false).
Proof.
  destruct z; simpl; [exact I | |]; apply binary_round_signed.
Qed.

Lemma SFldexp_signed prec emax sx x e :
  signed sx x -> signed sx (SFldexp prec emax x e).
Proof.
  destruct x as [| | |s m ex]; simpl; try done.
  intros ->. apply binary_round_signed.
Qed.

Lemma SFopp_signed sx x : signed sx x -> signed (negb sx) (SFopp x).
Proof. destruct x; simpl; congruence. Qed.

Lemma Prim2SF_SF2Prim_signed sx x :
  signed sx x -> signed sx (FloatOps.Prim2SF (FloatOps.SF2Prim x)).
Proof.
  destruct x as [[]|[]| |s m e]; simpl;
    try (intros _; vm_compute; exact I);
    try (intros <-; vm_compute; reflexivity).
  intros ->.
  assert (H : signed false (FloatOps.Prim2SF
                 (FloatOps.Z.ldexp (of_uint63 (Uint63Axioms.of_Z (Z.pos m))) e))).
    { rewrite FloatLemmas.Z_ldexp_spec, FloatAxioms.of_uint63_spec.
      apply SFldexp_signed.
      destruct (Uint63.to_Z_bounded (Uint63Axioms.of_Z (Z.pos m))) as [Hpos _].
      pose proof (binary_normalize_signed FloatOps.prec FloatOps.emax
                    (Uint63Axioms.to_Z (Uint63Axioms.of_Z (Z.pos m))) 0) as Hs.
      by rewrite (proj2 (Z.ltb_ge _ 0) Hpos) in Hs. }
  destruct sx; [|exact H].
  rewrite FloatAxioms.opp_spec. apply (SFopp_signed false), H.
Qed.

Lemma SFltb_signed x y :
  signed false x -> signed true y -> SFltb x y = false.
Proof.
  destruct x as [?|[]| |[] ? ?], y as [?|[]| |[] ? ?]; simpl; done.
Qed.

Lemma not_ltb_zero_signed (d : float) :
  (d <? 0)%float = false -> signed false (FloatOps.Prim2SF d).
Proof.
  rewrite FloatAxioms.ltb_spec.
  change (FloatOps.Prim2SF 0) with (S754_zero false).
  destruct (FloatOps.Prim2SF d) as [?|[]| |[] ? ?]; simpl; done.
Qed.

Lemma SF64div_signed x :
  signed true x ->
  signed true (FloatAxioms.SF64div x (FloatOps.Prim2SF 1000)).
Proof.
  assert (H : exists m e, FloatOps.Prim2SF 1000 = S754_finite false m e)
    by (eexists _, _; vm_compute; reflexivity).
  destruct H as (m & e & ->).
  destruct x as [?|?| |sx mx ex]; simpl; try done.
  - intros ->. reflexivity.
  - intros ->. unfold FloatAxioms.SF64div, SFdiv.
    destruct (SFdiv_core_binary _ _ _ _ _ _) as [[mz ez] lz].
    apply binary_round_aux_signed.
Qed.

Lemma digits2_pos_bounds (p : positive) :
  2 ^ (Z.pos (digits2_pos p) - 1) <= Z.pos p < 2 ^ Z.pos (digits2_pos p).
Proof.
  induction p as [p IH|p IH|]; simpl; [| |lia].
  all: rewrite Pos2Z.inj_succ, Z.pow_succ_r by lia.
  all: replace (Z.succ (Z.pos (digits2_pos p)) - 1)
         with (Z.succ (Z.pos (digits2_pos p) - 1)) by lia.
  all: rewrite Z.pow_succ_r by lia; lia.
Qed.

Lemma iter_xO_pow2 (m d : positive) :
  Z.pos (Pos.iter xO m d) = Z.pos m * 2 ^ Z.pos d.
Proof.
  induction d as [|d IH] using Pos.peano_ind.
  - simpl. lia.
  - rewrite Pos.iter_succ, Pos2Z.inj_succ, Z.pow_succ_r by lia.
    rewrite Pos2Z.inj_xO, IH. lia.
Qed.

Lemma shl_align_value (m : positive) (e e' : Z) :
  e' <= e ->
  Z.pos (fst (shl_align m e e')) = Z.pos m * 2 ^ (e - e').
Proof.
  intros He. unfold shl_align.
  destruct (e' - e) as [|d|d] eqn:Hd; simpl; [|lia|].
  - replace (e - e') with 0 by lia. lia.
  - rewrite iter_xO_pow2. f_equal. f_equal. lia.
Qed.

(** Of two canonical mantissas, the one with the larger exponent is the
    larger number. *)
Lemma bounded_exponents (m1 m2 : positive) (e1 e2 : Z) :
  bounded FloatOps.prec FloatOps.emax m1 e1 = true ->
  bounded FloatOps.prec FloatOps.emax m2 e2 = true ->
  e1 < e2 ->
  Z.pos m1 < Z.pos m2 * 2 ^ (e2 - e1).
Proof.
  unfold bounded, canonical_mantissa, fexp, emin, FloatOps.prec, FloatOps.emax.
  intros [H1 _]%andb_prop [H2 _]%andb_prop He.
  apply Z.eqb_eq in H1, H2.
  pose proof (digits2_pos_bounds m1) as [_ Hm1].
  pose proof (digits2_pos_bounds m2) as [Hm2 _].
  assert (Hd1 : Z.pos (digits2_pos m1) <= 53) by lia.
  assert (Hd2 : Z.pos (digits2_pos m2) = 53) by lia.
  rewrite Hd2 in Hm2.
  assert (Z.pos m1 < 2 ^ 53).
  { eapply Z.lt_le_trans; [exact Hm1|].
    apply Z.pow_le_mono_r; lia. }
  assert (2 ^ 1 <= 2 ^ (e2 - e1)) by (apply Z.pow_le_mono_r; lia).
  change (2 ^ (53 - 1)) with 4503599627370496 in Hm2.
  change (2 ^ 53) with 9007199254740992 in *.
  change (2 ^ 1) with 2 in *. nia.
Qed.

Lemma SFsub_signed (x y : spec_float) :
  valid_binary FloatOps.prec FloatOps.emax x = true ->
  valid_binary FloatOps.prec FloatOps.emax y = true ->
  SFleb y x = true ->
  signed false (FloatAxioms.SF64sub x y).
Proof.
  intros Hx Hy.
  destruct x as [sx|sx| |sx mx ex], y as [sy|sy| |sy my ey];
    try (destruct sx, sy; simpl; done);
    try (destruct sx; simpl; done);
    try (destruct sy; simpl; done); try done.
  unfold SFleb, SFcompare, FloatAxioms.SF64sub, SFsub. simpl in Hx, Hy.
  intros Hle.
  match goal with
  | |- signed false (binary_normalize _ _ ?z _ _) =>
      assert (Hz : 0 <= z); [|
        pose proof (binary_normalize_signed FloatOps.prec FloatOps.emax z
                      (Z.min ex ey)) as Hs;
        by rewrite (proj2 (Z.ltb_ge _ 0) Hz) in Hs]
  end.
  destruct (Z.min_spec ex ey) as [[Hlt ->]|[Hge ->]].
  - (* ex < ey *)
    rewrite (shl_align_value mx ex ex), (shl_align_value my ey ex) by lia.
    rewrite Z.sub_diag, Z.mul_1_r.
    pose proof (bounded_exponents mx my ex ey Hx Hy Hlt).
    destruct sx, sy; simpl in *; try lia; try done.
    by rewrite (proj2 (Z.compare_gt_iff ey ex)) in Hle by lia.
  - (* ey <= ex *)
    rewrite (shl_align_value mx ex ey), (shl_align_value my ey ey) by lia.
    rewrite Z.sub_diag, Z.mul_1_r.
    destruct (Z.eq_dec ey ex) as [->|Hne].
    + rewrite Z.sub_diag, Z.mul_1_r. rewrite Z.compare_refl in Hle.
      pose proof (Pos.compare_cont_spec my mx Eq) as Hc.
      rewrite Hc in Hle. simpl in Hle.
      destruct sx, sy; simpl in *; try lia; try done.
      * destruct (my ?= mx)%positive eqn:Hcmp; simpl in Hle; try done.
        -- apply Pos.compare_eq in Hcmp. lia.
        -- apply Pos.compare_gt_iff in Hcmp. lia.
      * destruct (my ?= mx)%positive eqn:Hcmp; simpl in Hle; try done.
        -- apply Pos.compare_eq in Hcmp. lia.
        -- change (Pos.lt my mx) in Hcmp. lia.
    + assert (Hlt : ey < ex) by lia.
      pose proof (bounded_exponents my mx ey ex Hy Hx Hlt).
      rewrite (proj2 (Z.compare_lt_iff ey ex) Hlt) in Hle.
      destruct sx, sy; simpl in *; try lia; try done.
Qed.

(** A clock that has not run backwards gives an elapsed time that is not
    negative. *)
Lemma elapsed_not_negative (st n : float) :
  (st <=? n)%float = true -> (n - st <? 0)%float = false.
Proof.
  rewrite FloatAxioms.leb_spec, FloatAxioms.ltb_spec, FloatAxioms.sub_spec.
  intros Hle.
  apply SFltb_signed; [|done].
  apply SFsub_signed; [apply FloatAxioms.Prim2SF_valid ..|done].
Qed.

(** The timeout in seconds of a timeout of zero or less is not positive. *)
Lemma timeout_seconds_signed (t : Z) (ts : float) :
  t <= 0 -> timeout_seconds t = Ok ts -> signed true (FloatOps.Prim2SF ts).
Proof.
  intros Ht. unfold timeout_seconds, float_of_int. simpl.
  destruct (is_infinity _); [done|]. intros [= <-].
  rewrite FloatAxioms.div_spec.
  apply SF64div_signed, Prim2SF_SF2Prim_signed.
  pose proof (binary_normalize_signed FloatOps.prec FloatOps.emax t 0) as Hs.
  destruct t as [|t|t]; [done | lia | exact Hs].
Qed.
End FloatSigns.

(** With a timeout of zero or less, an iteration at which the clock has not
    run backwards fails the loop condition. *)
Lemma not_in_time_nonpositive {taglist gerror : Type} (t : Z) (ts st : float)
    (p : @poll taglist gerror) :
  t <= 0 -> timeout_seconds t = Ok ts ->
  (st <=? now p)%float = true ->
  in_time ts st p = false.
Proof.
  intros Ht Hts Hst. unfold in_time. rewrite FloatAxioms.ltb_spec.
  apply SFltb_signed.
  - rewrite FloatAxioms.sub_spec.
    apply SFsub_signed; [apply FloatAxioms.Prim2SF_valid ..|].
    by rewrite <- FloatAxioms.leb_spec.
  - by apply (timeout_seconds_signed t).
Qed.

Section ScanMore.
Context {taglist gerror : Type}.
Variable convert_taglist : taglist -> TagMap.
Variable locale_decode : gerror -> string.
Implicit Types (p fin late : @poll taglist gerror).
Implicit Types (m : @message taglist gerror).
Implicit Types (tags : TagMap) (w : @env taglist gerror) (s : Scanner).
Implicit Types (k : pykey) (t : Z) (ts st : float).
Implicit Types (pre rest script more : list (@poll taglist gerror)).

Local Abbreviation loop := (collect_loop convert_taglist locale_decode).

Lemma collect_loop_all_quiet t ts st tags script :
  forallb (quiet ts st) script = true -> loop t ts st tags script = None.
Proof.
  intros H. rewrite <- (app_nil_r script).
  by rewrite (collect_loop_quiet convert_taglist locale_decode) by done.
Qed.

Lemma existsb_decisive ts st script :
  existsb (decisive ts st) script = negb (forallb (quiet ts st) script).
Proof.
  unfold decisive. induction script as [|p script IH]; [done|]. simpl.
  rewrite IH. by destruct (quiet ts st p).
Qed.

Lemma collect_loop_terminates_iff t ts st tags script :
  is_Some (loop t ts st tags script) <->
  existsb (decisive ts st) script = true.
Proof.
  split; [|apply collect_loop_terminates].
  rewrite existsb_decisive. intros [r Hr].
  destruct (forallb (quiet ts st) script) eqn:Hq; [|done].
  by rewrite collect_loop_all_quiet in Hr.
Qed.

(** X10: [_collect] and [scan] come to an end exactly when the timeout
    does not convert to a float (they raise at once), or some iteration is
    decisive, that is, fails the loop condition or pops a terminal event;
    while every iteration passes the loop condition and sees no terminal
    event, the loop keeps polling. *)
Theorem scan_ends_iff w (uri : string) s :
  (is_Some (scan convert_taglist locale_decode w uri s) <->
   match timeout_seconds (_timeout_ms s) with
   | Ok ts => existsb (decisive ts (start w)) (polls w) = true
   | Raise _ => True
   end)
  /\ (is_Some (_collect convert_taglist locale_decode w s) <->
      match timeout_seconds (_timeout_ms s) with
      | Ok ts => existsb (decisive ts (start w)) (polls w) = true
      | Raise _ => True
      end).
Proof.
  rewrite scan_unfold, _collect_unfold.
  destruct (timeout_seconds (_timeout_ms s)) as [ts|e0];
    [|split; split; eauto].
  rewrite <- !(collect_loop_terminates_iff (_timeout_ms s) ts _ ∅).
  destruct (loop (_timeout_ms s) ts (start w) ∅ (polls w)) as [[tags|e]|];
    split; split; intros [x Hx]; try done; eauto.
Qed.

(** X11: an iteration within the timeout that finds nothing pending, an
    event of another kind, or an async-done event from an element that is
    not the pipeline leaves the outcome of the polling unchanged, wherever
    in the run it happens. *)
Theorem skipped_iteration_ignored t ts st tags pre p rest :
  in_time ts st p = true ->
  skipped (pending p) = true ->
  loop t ts st tags (pre ++ p :: rest) = loop t ts st tags (pre ++ rest).
Proof.
  intros Htime Hp. revert tags.
  induction pre as [|q pre IH]; intros tags; simpl.
  - rewrite Htime.
    destruct (pending p) as [[src e|src|src|src tl|src]|]; simpl in Hp;
      try done.
    case_decide; [by case_bool_decide | done].
  - destruct (in_time ts st q); [|done].
    destruct (pending q) as [[src e|src|src|src tl|src]|]; try done.
    by case_decide.
Qed.

Lemma collect_loop_app t ts st tags script more r :
  loop t ts st tags script = Some r ->
  loop t ts st tags (script ++ more) = Some r.
Proof.
  revert tags. induction script as [|q script IH]; intros tags; [done|].
  simpl. destruct (in_time ts st q); [|done].
  destruct (pending q) as [[src e|src|src|src tl|src]|]; try done;
    try apply IH.
  case_decide; [done | apply IH].
Qed.

(** X12: once the polling has come to an end, nothing that the bus or the
    clock does afterwards changes the outcome of [scan]: events after the
    deciding one are never popped. *)
Theorem later_observations_unread w (uri : string) s r s' more :
  scan convert_taglist locale_decode w uri s = Some (r, s') ->
  scan convert_taglist locale_decode
       {| paused_result := paused_result w; start := start w;
          polls := polls w ++ more; duration_query := duration_query w |}
       uri s
  = Some (r, s').
Proof.
  rewrite !scan_unfold. simpl.
  destruct (timeout_seconds (_timeout_ms s)) as [ts|e0]; [|done].
  destruct (loop (_timeout_ms s) ts (start w) ∅ (polls w)) as [x|] eqn:Hx;
    [|done].
  by rewrite (collect_loop_app _ _ _ _ _ more _ Hx).
Qed.

(** X13: when the polling ends with success, [scan] returns the tags
    collected up to the terminal event together with the duration in whole
    milliseconds ([None] when unknown), and leaves the scanner reset.  [ts]
    is the timeout in seconds as [_collect] computes it. *)
Theorem scan_returns_tags_and_duration w (uri : string) s ts pre fin rest m :
  timeout_seconds (_timeout_ms s) = Ok ts ->
  polls w = (pre ++ fin :: rest)%list ->
  forallb (quiet ts (start w)) pre = true ->
  in_time ts (start w) fin = true ->
  pending fin = Some m ->
  finishes m = true ->
  scan convert_taglist locale_decode w uri s
  = Some (Ok (collected convert_taglist ∅ pre,
              whole_milliseconds (duration_query w)),
          left_by_scan s uri [CallQueryDuration]).
Proof.
  intros Hts Hpolls Hpre Htime Hfin Hm.
  rewrite scan_unfold, Hts, Hpolls.
  rewrite (collect_loop_quiet convert_taglist locale_decode) by done.
  simpl. rewrite Htime, Hfin.
  destruct m as [src e|src|src|src tl|src]; simpl in Hm; try done.
  case_decide; [done | by case_bool_decide].
Qed.



(** X15: [scan] calls [_setup], then [_collect], then [_query_duration]
    when and only when the polling succeeded, and [_reset] last; it leaves
    the URI assigned and the configured timeout as it was. *)
Theorem scan_call_order w (uri : string) s r s' :
  scan convert_taglist locale_decode w uri s = Some (r, s') ->
  history s'
  = (history s ++ [CallSetup uri; CallCollect]
     ++ (match r with Ok _ => [CallQueryDuration] | Raise _ => [] end)
     ++ [CallReset])%list
  /\ uribin_uri s' = Some uri
  /\ _timeout_ms s' = _timeout_ms s.
Proof.
  rewrite scan_unfold.
  destruct (timeout_seconds (_timeout_ms s)) as [ts|e0];
    [|by intros [= <- <-]].
  destruct (loop (_timeout_ms s) ts (start w) ∅ (polls w)) as [[tags|e']|];
    try done; by intros [= <- <-].
Qed.

(** X18: [_setup] never raises; it assigns the URI, takes the bus out of
    flushing and leaves the pipeline PAUSED, or PLAYING when the pipeline
    reports that it cannot pre-roll (a live source).  What the pipeline
    reports there changes nothing in what [scan] returns or in the state
    [scan] leaves. *)
Theorem setup_live_source w (uri : string) s (reported : state_change_return) :
  (exists s1,
     _setup w uri s = Some (Ok tt, s1)
     /\ pipe_state s1
        = (if decide (paused_result w = STATE_CHANGE_NO_PREROLL)
           then STATE_PLAYING else STATE_PAUSED)
     /\ uribin_uri s1 = Some uri
     /\ bus_flushing s1 = false
     /\ _timeout_ms s1 = _timeout_ms s)
  /\ scan convert_taglist locale_decode
          {| paused_result := reported; start := start w; polls := polls w;
             duration_query := duration_query w |} uri s
     = scan convert_taglist locale_decode w uri s.
Proof.
  split.
  - exists (primed w uri s). by rewrite _setup_unfold.
  - by rewrite !scan_unfold.
Qed.

(** X17: with a timeout of zero or less and a clock that has not run
    backwards at the first check of the loop condition, the loop body never
    runs: whatever is pending on the bus, [scan] raises at once, the timeout
    error when the timeout converts to a float and OverflowError when it
    does not. *)
Theorem nonpositive_timeout_times_out w (uri : string) s p rest :
  _timeout_ms s <= 0 ->
  polls w = p :: rest ->
  (start w <=? now p)%float = true ->
  exists e,
    scan convert_taglist locale_decode w uri s
    = Some (Raise e, left_by_scan s uri [])
    /\ match timeout_seconds (_timeout_ms s) with
       | Ok _ =>
           exists digits,
             e = ScannerError ("Timeout after " ++ digits ++ "ms")
             /\ digits = format_d (_timeout_ms s)
             /\ read_d digits = Some (_timeout_ms s)
       | Raise _ => e = OverflowError
       end.
Proof.
  intros Ht Hpolls Hst. rewrite scan_unfold.
  destruct (timeout_seconds (_timeout_ms s)) as [ts|e0] eqn:Hts.
  - rewrite Hpolls. simpl.
    rewrite (not_in_time_nonpositive _ ts _ _ Ht Hts Hst).
    eexists. split; [reflexivity|]. eexists. split; [reflexivity|].
    split; [reflexivity | apply format_d_read].
  - exists e0. split; [reflexivity|]. by apply (timeout_seconds_Raise _ _ Hts).
Qed.
End ScanMore.

Lemma skipped_iteration_ignored_witness :
  collect_loop id id 1000 1 100 ∅
    (sample_polls ++ other_poll :: [eos_poll])
  = collect_loop id id 1000 1 100 ∅ (sample_polls ++ [eos_poll]).
Proof.
  apply (skipped_iteration_ignored id id 1000 1 100 ∅ sample_polls
           other_poll [eos_poll]); reflexivity.
Defined.

Lemma scan_returns_tags_and_duration_witness :
  scan id id (sample_env [eos_poll; error_poll]) "file:///song.mp3"
       (Scanner_init 1000)
  = Some (Ok (collected id ∅ sample_polls, Some 1500),
          left_by_scan (Scanner_init 1000) "file:///song.mp3"
                       [CallQueryDuration]).
Proof.
  apply (scan_returns_tags_and_duration id id
           (sample_env [eos_poll; error_poll]) "file:///song.mp3"
           (Scanner_init 1000) 1 sample_polls eos_poll [error_poll]
           (MESSAGE_EOS Pipeline)); reflexivity.
Defined.

Lemma later_observations_unread_witness :
  scan id id
       {| paused_result := STATE_CHANGE_ASYNC; start := 100;
          polls := polls (sample_env [late_poll]) ++ [eos_poll];
          duration_query := Some 1500999999 |}
       "file:///song.mp3" (Scanner_init 1000)
  = Some (Raise (ScannerError "Timeout after 1000ms"),
          left_by_scan (Scanner_init 1000) "file:///song.mp3" []).
Proof.
  apply (later_observations_unread id id (sample_env [late_poll])
           "file:///song.mp3" (Scanner_init 1000)).
  reflexivity.
Defined.


Lemma nonpositive_timeout_times_out_witness :
  scan id id
       {| paused_result := STATE_CHANGE_SUCCESS; start := 100;
          polls := [eos_poll]; duration_query := None |}
       "file:///song.mp3" (Scanner_init 0)
  = Some (Raise (ScannerError "Timeout after 0ms"),
          left_by_scan (Scanner_init 0) "file:///song.mp3" [])
  /\ scan id id
          {| paused_result := STATE_CHANGE_SUCCESS; start := 100;
             polls := [mkPoll 100 None; eos_poll]; duration_query := None |}
          "file:///song.mp3" (Scanner_init (-5))
     = Some (Raise (ScannerError "Timeout after -5ms"),
             left_by_scan (Scanner_init (-5)) "file:///song.mp3" [])
  /\ scan id id
          {| paused_result := STATE_CHANGE_SUCCESS; start := 100;
             polls := [eos_poll]; duration_query := None |}
          "file:///song.mp3" (Scanner_init (- 10 ^ 400))
     = Some (Raise OverflowError,
             left_by_scan (Scanner_init (- 10 ^ 400)) "file:///song.mp3" []).
Proof.
  split; [|split].
  - destruct (nonpositive_timeout_times_out id id
                {| paused_result := STATE_CHANGE_SUCCESS; start := 100;
                   polls := [eos_poll]; duration_query := None |}
                "file:///song.mp3" (Scanner_init 0) eos_poll [])
      as (e & Hscan & digits & -> & -> & _);
      [simpl; lia | reflexivity | reflexivity | exact Hscan].
  - destruct (nonpositive_timeout_times_out id id
                {| paused_result := STATE_CHANGE_SUCCESS; start := 100;
                   polls := [mkPoll 100 None; eos_poll];
                   duration_query := None |}
                "file:///song.mp3" (Scanner_init (-5)) (mkPoll 100 None)
                [eos_poll])
      as (e & Hscan & digits & -> & -> & _);
      [simpl; lia | reflexivity | reflexivity | exact Hscan].
  - destruct (nonpositive_timeout_times_out id id
                {| paused_result := STATE_CHANGE_SUCCESS; start := 100;
                   polls := [eos_poll]; duration_query := None |}
                "file:///song.mp3" (Scanner_init (- 10 ^ 400)) eos_poll [])
      as (e & Hscan & He);
      [simpl; lia | reflexivity | reflexivity |].
    assert (Hts : timeout_seconds (_timeout_ms (Scanner_init (- 10 ^ 400)))
                  = Raise OverflowError) by (vm_compute; reflexivity).
    rewrite Hts in He. rewrite He in Hscan. exact Hscan.
Defined.

Lemma scan_call_order_witness :
  exists s',
    scan id id (sample_env [eos_poll]) "file:///song.mp3" (Scanner_init 1000)
    = Some (Ok (collected id ∅ sample_polls, Some 1500), s')
    /\ history s'
       = [CallSetup "file:///song.mp3"; CallCollect; CallQueryDuration;
          CallReset]
    /\ uribin_uri s' = Some "file:///song.mp3"
    /\ _timeout_ms s' = 1000.
Proof.
  assert (H : scan id id (sample_env [eos_poll]) "file:///song.mp3"
                (Scanner_init 1000)
              = Some (Ok (collected id ∅ sample_polls, Some 1500),
                      left_by_scan (Scanner_init 1000) "file:///song.mp3"
                                   [CallQueryDuration]))
    by reflexivity.
  eexists. split; [exact H|].
  exact (scan_call_order id id _ _ _ _ _ H).
Defined.
